(** * pyctios: the CtiOs request/response pipeline ([ctios/__init__.py])

    A shallow embedding of class [CtiOs]: identifier selection, batching,
    response classification, attribute-name translation and the per-record
    update of table OPSUB, followed by the properties of the design
    document that can be stated over it.

    Python objects are modelled as follows.
    - [str] is [string] (the attribute and column names of the service are
      ASCII; characters outside a-z / A-Z are left alone by [str_upper]).
    - [int] is [Z]; [len] is [Z.of_nat (length _)].
    - an exception is a value of [PyExc]; a method is a function in the
      monad [M], which threads the instance attributes assigned outside
      [__init__], the database file and the trace of observable events.
    - a [dict] whose iteration order matters is an association list updated
      in place ([dict_set]); the attribute map read from the CSV file is a
      [gmap]; a [set] is a [gset].
    - the XML tree of [xml.etree.ElementTree] is [Element]. *)

From Stdlib Require Import ZArith String Ascii List Lia.
From stdpp Require Import base option list strings pretty gmap.

Open Scope string_scope.
Open Scope list_scope.
Open Scope Z_scope.

(** ** Python strings *)

Module PyStr.

Definition is_AZ (c : ascii) : bool :=
  ((65 <=? nat_of_ascii c) && (nat_of_ascii c <=? 90))%nat.

Definition is_az (c : ascii) : bool :=
  ((97 <=? nat_of_ascii c) && (nat_of_ascii c <=? 122))%nat.

Definition upper_char (c : ascii) : ascii :=
  if is_az c then ascii_of_nat (nat_of_ascii c - 32) else c.

(** [str.upper()] on ASCII text: a-z become A-Z and every other ASCII
    character stays.  Outside ASCII [str.upper()] follows the Unicode case
    mapping (it can even lengthen the text), which is not modelled; what is
    said of the letters of a name below is said of ASCII names. *)
Fixpoint str_upper (s : string) : string :=
  match s with
  | EmptyString => EmptyString
  | String c s' => String (upper_char c) (str_upper s')
  end.

(** [re.sub('([A-Z]{1})', r'_\1', s)]: the pattern matches one upper-case
    letter at a time, left to right, and every match is replaced by an
    underscore followed by the matched letter. *)
Fixpoint re_sub_AZ (s : string) : string :=
  match s with
  | EmptyString => EmptyString
  | String c s' =>
      if is_AZ c then String "_" (String c (re_sub_AZ s'))
      else String c (re_sub_AZ s')
  end.

(** [s.index(c)]: position of the first occurrence, [None] for ValueError. *)
Fixpoint str_index (c : ascii) (s : string) : option nat :=
  match s with
  | EmptyString => None
  | String d s' =>
      if Ascii.eqb c d then Some 0%nat
      else match str_index c s' with
           | Some i => Some (S i)
           | None => None
           end
  end.

(** [s[i:]] for [0 <= i]. *)
Fixpoint str_from (i : nat) (s : string) : string :=
  match i, s with
  | O, _ => s
  | S i', String _ s' => str_from i' s'
  | S _, EmptyString => EmptyString
  end.

(** [''.join(l)] *)
Definition str_join (l : list string) : string :=
  fold_right String.append EmptyString l.

End PyStr.
Import PyStr.

(** ** Exceptions, values, XML elements *)

Inductive PyExc : Type :=
| CtiOsError (msg : string)        (* ctios.exceptions.CtiOsError; [msg] is the fixed part of the message *)
| PyException (msg : string)       (* raise Exception(msg) *)
| AttributeError (name : string)   (* attribute [name] missing on the object *)
| UnboundLocalError (name : string)
| TypeError
| ValueError
| IndexError
| ZeroDivisionError
| ParseError                       (* xml.etree.ElementTree.ParseError *)
| OSError                          (* the log file cannot be opened *)
| SqliteError (msg : string).      (* sqlite3.Error, i.e. conn.Error *)

(** A text that may be [None] (an element without text, an SQL NULL). *)
Definition cell := option string.

(** A row returned by [fetchall()] is a tuple of values. *)
Definition Row := list cell.

(** ["{}".format(v)] *)
Definition format_cell (v : cell) : string :=
  match v with Some s => s | None => "None" end.

#[local] Set Warnings "-register-all".
Inductive Element : Type :=
| Elem (tag : string) (text : cell) (children : list Element).

Definition tag (e : Element) : string := match e with Elem t _ _ => t end.
Definition text (e : Element) : cell := match e with Elem _ x _ => x end.
Definition children (e : Element) : list Element := match e with Elem _ _ c => c end.

(** All proper descendants in document order: what the path [.//] ranges over. *)
Fixpoint descendants (e : Element) : list Element :=
  match e with
  | Elem _ _ cs => flat_map (fun c => c :: descendants c) cs
  end.

Definition has_tag (t : string) (e : Element) : bool := String.eqb (tag e) t.

(** [e.find(t)]: the first direct child with tag [t]. *)
Definition find_child (e : Element) (t : string) : option Element :=
  List.find (has_tag t) (children e).

(** [e.find('.//' + t)] *)
Definition find_desc (e : Element) (t : string) : option Element :=
  List.find (has_tag t) (descendants e).

(** [e.findall('.//' + t)] *)
Definition findall_desc (e : Element) (t : string) : list Element :=
  List.filter (has_tag t) (descendants e).

Definition ns : string := "{http://katastr.cuzk.cz/ctios/types/v2.8}".
Definition tag_os : string := ns +:+ "os".
Definition tag_chybaPOSIdent : string := ns +:+ "chybaPOSIdent".
Definition tag_pOSIdent : string := ns +:+ "pOSIdent".
Definition tag_osId : string := ns +:+ "osId".
Definition tag_osDetail : string := ns +:+ "osDetail".

(** [t[t.index('}') + 1:]] *)
Definition local_name (t : string) : option string :=
  match str_index "}" t with
  | Some i => Some (str_from (S i) t)
  | None => None
  end.

(** A [dict] in insertion order: assigning to a present key keeps its place. *)
Fixpoint dict_set {V : Type} (k : string) (v : V) (d : list (string * V)) : list (string * V) :=
  match d with
  | [] => [(k, v)]
  | (k', v') :: d' =>
      if String.eqb k' k then (k', v) :: d' else (k', v') :: dict_set k v d'
  end.

(** ** The store: table OPSUB of the SQLite file

    The engine is outside the repository; its contract as the pipeline uses
    it: a table has named columns and rows of cells; a statement naming an
    absent table or column raises [sqlite3.Error]; statements between BEGIN
    and COMMIT act on a working copy that COMMIT installs and that ROLLBACK
    or closing the connection discards. [cursor.description] reports the
    names of the columns as they are declared; the engine itself resolves
    a name without regard to case. *)

Record Table : Type := mkTable {
  columns : list string;
  rows : list (list cell)
}.

Inductive Stmt : Type :=
| Pragma                                   (* PRAGMA read_committed = true; *)
| SelectAll                                (* select * from OPSUB *)
| AlterAddOsId                             (* ALTER TABLE OPSUB ADD COLUMN OS_ID TEXT *)
| CallerSql (sql : string)                 (* the statement given to [set_ids_from_db] *)
| BeginTransaction
| Update (col : string) (v : cell) (posident : cell)  (* UPDATE OPSUB SET col = ? WHERE id = ? *)
| CommitTransaction
| RollbackTransaction.

(** SQLite compares the names of columns without regard to the case of the
    ASCII letters: a statement that names OS_ID finds a column [os_id]. *)
Definition sql_lower_char (c : ascii) : ascii :=
  if is_AZ c then ascii_of_nat (nat_of_ascii c + 32) else c.

Fixpoint sql_lower (s : string) : string :=
  match s with
  | EmptyString => EmptyString
  | String c s' => String (sql_lower_char c) (sql_lower s')
  end.

Definition sql_name_eqb (a b : string) : bool :=
  String.eqb (sql_lower a) (sql_lower b).

(** Position of the column a statement names. *)
Fixpoint col_index (c : string) (cols : list string) : option nat :=
  match cols with
  | [] => None
  | c' :: cols' =>
      if sql_name_eqb c' c then Some 0%nat
      else match col_index c cols' with
           | Some i => Some (S i)
           | None => None
           end
  end.

Definition cell_eqb (a b : cell) : bool :=
  match a, b with
  | Some x, Some y => String.eqb x y
  | _, _ => false                           (* NULL = anything is not true *)
  end.

Definition update_row (ci ii : nat) (v posident : cell) (r : list cell) : list cell :=
  match r !! ii with
  | Some idv => if cell_eqb idv posident then <[ci := v]> r else r
  | None => r
  end.

(** UPDATE OPSUB SET col = v WHERE id = posident *)
Definition table_update (col : string) (v posident : cell) (t : Table) : option Table :=
  match col_index col (columns t), col_index "ID" (columns t) with
  | Some ci, Some ii => Some (mkTable (columns t) (map (update_row ci ii v posident) (rows t)))
  | _, _ => None
  end.

(** ALTER TABLE OPSUB ADD COLUMN OS_ID TEXT *)
Definition table_add_os_id (t : Table) : option Table :=
  match col_index "OS_ID" (columns t) with
  | Some _ => None                          (* duplicate column name *)
  | None => Some (mkTable (columns t ++ ["OS_ID"]) (map (fun r => r ++ [None]) (rows t)))
  end.

(** ** Observable events *)

Inductive Level : Type := INFO | ERROR | FATAL | EXCEPTION.

Inductive Event : Type :=
| EvCall (ids : list Row)                  (* _query_service entered with this batch *)
| EvPost (request_xml : string)            (* requests.post(endpoint, data=request_xml, ...) *)
| EvSql (stmt : Stmt) (ok : bool)          (* cur.execute(stmt) and whether the engine accepted it *)
| EvLog (lvl : Level) (msg : string) (args : list string)
| EvPrint (line : string).

(** ** The instance and its world *)

Record StateVector : Type := mkSV {
  neplatny_identifikator : Z;
  expirovany_identifikator : Z;
  opravneny_subjekt_neexistuje : Z;
  uspesne_stazeno : Z
}.

(** The local variables of [_save_attributes_to_db] that are read in a
    later iteration of its loop than the one that assigned them; [None]
    (or [false]) is a variable that is not yet bound. *)
Record Locals : Type := mkLocals {
  posident : option cell;
  osid : option cell;
  conn : bool
}.

Definition no_locals : Locals := mkLocals None None false.

(** The attributes [log_dir], [logging] and [state_vector] are not assigned
    by [__init__]; [None] (or [false]) is an attribute that does not exist.
    [txn] is the working copy of the database held by the transaction that
    is open on the current connection. *)
Record State : Type := mkState {
  log_dir : option string;
  logging : bool;
  state_vector : option StateVector;
  locals : Locals;
  db_openable : bool;                      (* sqlite3.connect(db_path) succeeds *)
  opsub : option Table;                    (* committed table OPSUB; None: no such table *)
  txn : option (option Table);
  trace : list Event
}.

Definition set_log_dir (d : option string) (s : State) : State :=
  mkState d (logging s) (state_vector s) (locals s) (db_openable s) (opsub s) (txn s) (trace s).
Definition set_logging (b : bool) (s : State) : State :=
  mkState (log_dir s) b (state_vector s) (locals s) (db_openable s) (opsub s) (txn s) (trace s).
Definition set_state_vector (v : option StateVector) (s : State) : State :=
  mkState (log_dir s) (logging s) v (locals s) (db_openable s) (opsub s) (txn s) (trace s).
Definition set_locals (l : Locals) (s : State) : State :=
  mkState (log_dir s) (logging s) (state_vector s) l (db_openable s) (opsub s) (txn s) (trace s).
Definition set_opsub (t : option Table) (s : State) : State :=
  mkState (log_dir s) (logging s) (state_vector s) (locals s) (db_openable s) t (txn s) (trace s).
Definition set_txn (t : option (option Table)) (s : State) : State :=
  mkState (log_dir s) (logging s) (state_vector s) (locals s) (db_openable s) (opsub s) t (trace s).
Definition add_event (e : Event) (s : State) : State :=
  mkState (log_dir s) (logging s) (state_vector s) (locals s) (db_openable s) (opsub s) (txn s)
          (trace s ++ [e]).

(** ** The monad of methods *)

Inductive Res (A : Type) : Type :=
| Ok (a : A)
| Raise (e : PyExc).
Arguments Ok {A} a.
Arguments Raise {A} e.

Definition M (A : Type) : Type := State -> Res A * State.

Definition ret {A} (a : A) : M A := fun s => (Ok a, s).
Definition raise {A} (e : PyExc) : M A := fun s => (Raise e, s).
Definition bind {A B} (m : M A) (k : A -> M B) : M B :=
  fun s => match m s with
           | (Ok a, s') => k a s'
           | (Raise e, s') => (Raise e, s')
           end.

#[export] Instance M_ret : MRet M := @ret.
#[export] Instance M_bind : MBind M := fun A B k m => bind m k.

(** [try: m except <cls>: h]. The expression [cls] is evaluated when an
    exception arrives; [cls] yields the test "is an instance of the class". *)
Definition try_except {A} (m : M A) (cls : M (PyExc -> bool)) (h : M A) : M A :=
  fun s => match m s with
           | (Ok a, s') => (Ok a, s')
           | (Raise e, s') =>
               match cls s' with
               | (Ok c, s'') => if c e then h s'' else (Raise e, s'')
               | (Raise e', s'') => (Raise e', s'')
               end
           end.

(** [try: m finally: f] *)
Definition try_finally {A} (m : M A) (f : M unit) : M A :=
  fun s => match m s with
           | (Ok a, s') => match f s' with
                           | (Ok _, s'') => (Ok a, s'')
                           | (Raise e, s'') => (Raise e, s'')
                           end
           | (Raise e, s') => match f s' with
                              | (Ok _, s'') => (Raise e, s'')
                              | (Raise e', s'') => (Raise e', s'')
                              end
           end.

(** [for x in l: acc = body x acc] *)
Fixpoint for_each {A S : Type} (l : list A) (body : A -> S -> M S) (acc : S) : M S :=
  match l with
  | [] => ret acc
  | x :: l' => acc' ← body x acc; for_each l' body acc'
  end.

Definition get : M State := fun s => (Ok s, s).
Definition modify (f : State -> State) : M unit := fun s => (Ok tt, f s).
Definition emit (e : Event) : M unit := modify (add_event e).

Definition is_sqlite_error (e : PyExc) : bool :=
  match e with SqliteError _ => true | _ => false end.

(** Truth value of a [str]. *)
Definition truthy (s : string) : bool :=
  match s with EmptyString => false | _ => true end.

(** [self.log_dir] *)
Definition get_log_dir : M string :=
  s ← get;
  match log_dir s with
  | Some d => ret d
  | None => raise (AttributeError "log_dir")
  end.

(** [self.logging.<lvl>(msg.format(args))] *)
Definition log (lvl : Level) (msg : string) (args : list string) : M unit :=
  s ← get;
  if logging s then emit (EvLog lvl msg args)
  else raise (AttributeError "logging").

(** [if self.log_dir: self.logging.<lvl>(...)] *)
Definition log_if_dir (lvl : Level) (msg : string) (args : list string) : M unit :=
  d ← get_log_dir;
  if truthy d then log lvl msg args else ret tt.

(** [self.state_vector] *)
Definition get_state_vector : M StateVector :=
  s ← get;
  match state_vector s with
  | Some v => ret v
  | None => raise (AttributeError "state_vector")
  end.

(** [self.state_vector[key] += 1] *)
Definition incr_state_vector (f : StateVector -> StateVector) : M unit :=
  v ← get_state_vector;
  modify (set_state_vector (Some (f v))).

Definition incr_neplatny (v : StateVector) : StateVector :=
  mkSV (neplatny_identifikator v + 1) (expirovany_identifikator v)
       (opravneny_subjekt_neexistuje v) (uspesne_stazeno v).
Definition incr_expirovany (v : StateVector) : StateVector :=
  mkSV (neplatny_identifikator v) (expirovany_identifikator v + 1)
       (opravneny_subjekt_neexistuje v) (uspesne_stazeno v).
Definition incr_neexistuje (v : StateVector) : StateVector :=
  mkSV (neplatny_identifikator v) (expirovany_identifikator v)
       (opravneny_subjekt_neexistuje v + 1) (uspesne_stazeno v).
Definition incr_uspesne (v : StateVector) : StateVector :=
  mkSV (neplatny_identifikator v) (expirovany_identifikator v)
       (opravneny_subjekt_neexistuje v) (uspesne_stazeno v + 1).

(** ** The SQLite connection *)

(** The database as the current connection sees it. *)
Definition current_db (s : State) : option Table :=
  match txn s with
  | Some w => w
  | None => opsub s
  end.

(** What the engine does with a statement; [None] when it rejects it. An
    UPDATE outside a transaction opens one first, as the [sqlite3] module
    does before a data-modifying statement. *)
Definition engine (st : Stmt) (s : State) : option State :=
  match st with
  | Pragma => Some s
  | SelectAll =>
      match current_db s with
      | Some _ => Some s
      | None => None
      end
  | CallerSql _ => Some s                   (* rows and effect: [execute_fetchall] *)
  | AlterAddOsId =>
      match current_db s with
      | Some t =>
          match table_add_os_id t with
          | Some t' =>
              match txn s with
              | Some _ => Some (set_txn (Some (Some t')) s)
              | None => Some (set_opsub (Some t') s)
              end
          | None => None
          end
      | None => None
      end
  | BeginTransaction =>
      match txn s with
      | Some _ => None
      | None => Some (set_txn (Some (opsub s)) s)
      end
  | Update col v p =>
      match current_db s with
      | Some t =>
          match table_update col v p t with
          | Some t' => Some (set_txn (Some (Some t')) s)
          | None => None
          end
      | None => None
      end
  | CommitTransaction =>
      match txn s with
      | Some w => Some (set_txn None (set_opsub w s))
      | None => None
      end
  | RollbackTransaction =>
      match txn s with
      | Some _ => Some (set_txn None s)
      | None => None
      end
  end.

(** [cur.execute(st)] *)
Definition execute (st : Stmt) : M unit :=
  fun s => match engine st s with
           | Some s' => (Ok tt, add_event (EvSql st true) s')
           | None => (Raise (SqliteError "rejected"), add_event (EvSql st false) s)
           end.

(** [conn.close()]: uncommitted work is lost. *)
Definition conn_close : M unit := modify (set_txn None).

(** [conn.commit()] *)
Definition commit (s : State) : State :=
  match txn s with
  | Some w => set_txn None (set_opsub w s)
  | None => s
  end.

(** [with conn: m]: the connection commits when the block returns and rolls
    back when it raises. *)
Definition with_conn {A} (m : M A) : M A :=
  fun s => match m s with
           | (Ok a, s') => (Ok a, commit s')
           | (Raise e, s') => (Raise e, set_txn None s')
           end.

(** [list(map(lambda x: x[0], cur.description))] after [select * from OPSUB] *)
Definition description : M (list string) :=
  s ← get;
  match current_db s with
  | Some t => ret (columns t)
  | None => raise TypeError
  end.

(** [name in col_names] *)
Definition str_in (x : string) (l : list string) : bool := existsb (String.eqb x) l.

(** ** Local variables of [_save_attributes_to_db] *)

Definition set_posident (v : cell) : M unit :=
  modify (fun s => set_locals (mkLocals (Some v) (osid (locals s)) (conn (locals s))) s).
Definition set_osid (v : cell) : M unit :=
  modify (fun s => set_locals (mkLocals (posident (locals s)) (Some v) (conn (locals s))) s).
Definition set_conn : M unit :=
  modify (fun s => set_locals (mkLocals (posident (locals s)) (osid (locals s)) true) s).

Definition get_posident : M cell :=
  s ← get;
  match posident (locals s) with
  | Some v => ret v
  | None => raise (UnboundLocalError "posident")
  end.
Definition get_osid : M cell :=
  s ← get;
  match osid (locals s) with
  | Some v => ret v
  | None => raise (UnboundLocalError "osid")
  end.

(** The expression [conn.Error] of an except clause. *)
Definition conn_Error : M (PyExc -> bool) :=
  s ← get;
  if conn (locals s) then ret is_sqlite_error
  else raise (UnboundLocalError "conn").

(** [e.find(t).text] *)
Definition find_text (e : Element) (t : string) : M cell :=
  match find_child e t with
  | Some c => ret (text c)
  | None => raise (AttributeError "text")
  end.

(** [x.text == lit] *)
Definition text_is (e : Element) (lit : string) : bool :=
  match text e with
  | Some x => String.eqb x lit
  | None => false
  end.

(** ** The instance: what [__init__] reads from the configuration, and the
    collaborators of the class that live outside this module. *)

Record CtiOs : Type := mkCtiOs {
  _username : string;
  _password : string;
  _max_num : Z;
  (** [CtiOsTemplate(dir).render('request.xml', username=, password=, posidents=)] *)
  render_request : string -> string -> string -> string;
  (** [requests.post(endpoint, data=request_xml, headers=...).text]; [None]
      is a [RequestException] *)
  post : string -> option string;
  (** [et.fromstring]; [None] is a [ParseError] *)
  fromstring : string -> option Element;
  (** [CtiOsCsv(dir).read_csv_as_dictionary(file)]; [None] when it raises *)
  read_csv_as_dictionary : option (gmap string string);
  (** [cur.execute(sql); cur.fetchall()] for a statement of the caller's,
      given table OPSUB as the connection sees it ([None]: there is no such
      table): the rows it returns and table OPSUB as the statement leaves
      it, unchanged by a query; [None] is an [sqlite3.Error] *)
  fetchall : string -> option Table -> option (list Row * option Table);
  (** whether [logging.basicConfig] can open the log file in a directory *)
  log_file_ok : string -> bool
}.

(** ** The methods of [CtiOs] *)

Section Methods.

Variable self : CtiOs.

(** [_create_connection] *)
Definition _create_connection : M unit :=
  s ← get;
  if db_openable s then modify (set_txn None)
  else log_if_dir FATAL "SQLITE3 ERROR!" [];;
       raise (CtiOsError "SQLITE3 ERROR").

Definition default_sql : string := "SELECT ID FROM OPSUB".

(** The column ID of every row, as 1-tuples. *)
Definition select_id (t : Table) : option (list Row) :=
  match col_index "ID" (columns t) with
  | Some i => Some (map (fun r => [default None (r !! i)]) (rows t))
  | None => None
  end.

(** What the engine answers to the statement of [_get_ids_from_db]: the
    rows and, for a statement of the caller's, the table it leaves. *)
Definition caller_sql (sql : string) (db : option Table)
  : option (list Row * option (option Table)) :=
  if String.eqb sql default_sql then
    match db with
    | Some t => option_map (fun r => (r, None)) (select_id t)
    | None => None
    end
  else option_map (fun '(r, db') => (r, Some db')) (fetchall self sql db).

(** [cur.execute(sql); ids = cur.fetchall()].  The statement is whatever
    the caller gave: what it writes is pending on the connection. *)
Definition execute_fetchall (sql : string) : M (list Row) :=
  s ← get;
  match caller_sql sql (current_db s) with
  | Some (r, pending) =>
      emit (EvSql (CallerSql sql) true);;
      match pending with
      | Some db' => modify (set_txn (Some db'))
      | None => ret tt
      end;;
      ret r
  | None =>
      emit (EvSql (CallerSql sql) false);;
      raise (SqliteError "rejected")
  end.

(** [_get_ids_from_db] *)
Definition _get_ids_from_db (sql : string) : M (list Row) :=
  ids ← try_except
          (_create_connection;; with_conn (execute_fetchall sql))
          (ret is_sqlite_error)
          (raise (CtiOsError "Database error"));
  ret (elements (list_to_set ids : gset Row)).

(** [set_ids_from_db] *)
Definition set_ids_from_db (sql : option string) : M (list Row) :=
  let sql := match sql with Some q => q | None => default_sql end in
  ids ← _get_ids_from_db sql;
  if (Z.of_nat (length ids) <=? 1) then raise (CtiOsError "Query has an empty result!")
  else ret ids.

(** [_draw_up_xml_request] *)
Definition _draw_up_xml_request (ids : list Row) : M string :=
  ids_array ← for_each ids
     (fun i acc =>
        match i with
        | i0 :: _ => ret (acc ++ ["<v2:pOSIdent>" +:+ format_cell i0 +:+ "</v2:pOSIdent>"])
        | [] => raise IndexError
        end) [];
  ret (render_request self (_username self) (_password self) (str_join ids_array)).

(** [_call_service] *)
Definition _call_service (request_xml : string) : M string :=
  emit (EvPost request_xml);;
  match post self request_xml with
  | Some response_xml => ret response_xml
  | None => raise (CtiOsError "Service error")
  end.

(** [_transform_names] *)
Definition _transform_names (xml_name : string) : string :=
  str_upper (re_sub_AZ xml_name).

Definition msg_unmappable : string :=
  "XML ATTRIBUTE NAME CANNOT BE CONVERTED TO DATABASE COLUMN NAME".

(** [_transform_names_dict] *)
Definition _transform_names_dict (xml_name : string) : M string :=
  match read_csv_as_dictionary self with
  | Some dictionary =>
      match dictionary !! xml_name with
      | Some database_name => ret database_name
      | None => log_if_dir EXCEPTION msg_unmappable [];; raise (CtiOsError msg_unmappable)
      end
  | None => log_if_dir EXCEPTION msg_unmappable [];; raise (CtiOsError msg_unmappable)
  end.

(** *** [_save_attributes_to_db], one record of the response *)

(** Lines 268-288: the error marker. The result says whether the loop
    goes on to the next record ([continue]). *)
Definition classify (os : Element) : M bool :=
  match find_child os tag_chybaPOSIdent with
  | Some chyba =>
      p ← find_text os tag_pOSIdent;
      set_posident p;;
      if text_is chyba "NEPLATNY_IDENTIFIKATOR" then
        incr_state_vector incr_neplatny;;
        log_if_dir ERROR "POSIDENT {} NEPLATNY IDENTIFIKATOR" [format_cell p];;
        ret true
      else if text_is chyba "EXPIROVANY_IDENTIFIKATOR" then
        incr_state_vector incr_expirovany;;
        log_if_dir ERROR "POSIDENT {}: EXPIROVANY IDENTIFIKATOR" [format_cell p];;
        ret true
      else if text_is chyba "OPRAVNENY_SUBJEKT_NEEXISTUJE" then
        incr_state_vector incr_neexistuje;;
        log_if_dir ERROR "POSIDENT {}: OPRAVNENY SUBJEKT NEEXISTUJE" [format_cell p];;
        ret true
      else ret false
  | None =>
      incr_state_vector incr_uspesne;;
      ret false
  end.

(** Lines 291-298: [posident] and [osid] from the children of the record. *)
Definition read_identifiers (os : Element) : M unit :=
  for_each (children os)
    (fun child _ =>
       let name := tag child in
       (if String.eqb name tag_pOSIdent
        then p ← find_text os name; set_posident p
        else ret tt);;
       (if String.eqb name tag_osId
        then o ← find_text os name; set_osid o
        else ret tt)) tt.

(** Lines 300-303: the dictionary [xml_attributes]. *)
Definition read_details (os : Element) : M (list (string * cell)) :=
  match find_desc os tag_osDetail with
  | Some detail =>
      for_each (children detail)
        (fun child xml_attributes =>
           let name2 := tag child in
           v ← match find_desc os name2 with
               | Some e => ret (text e)
               | None => raise (AttributeError "text")
               end;
           match local_name name2 with
           | Some k => ret (dict_set k v xml_attributes)
           | None => raise ValueError
           end) []
  | None => raise TypeError                 (* [for child in None] *)
  end.

(** Lines 311-313: the column names, and OS_ID added when it is not one. *)
Definition add_os_id_if_absent : M (list string) :=
  col_names ← description;
  (if negb (str_in "OS_ID" col_names) then execute AlterAddOsId else ret tt);;
  ret col_names.

(** Lines 306-320: connect, read the column names, add OS_ID if absent. *)
Definition open_and_evolve : M (list string) :=
  try_except
    (_create_connection;;
     set_conn;;
     execute Pragma;;
     execute SelectAll;;
     add_os_id_if_absent)
    conn_Error
    (conn_close;;
     log_if_dir EXCEPTION "Pripojeni k databazi selhalo" [];;
     raise (PyException "CONNECTION TO DATABASE FAILED")).

(** Lines 325-327: the column of one attribute. *)
Definition column_name (col_names : list string) (xml_name : string) : M string :=
  let database_name := _transform_names xml_name in
  if negb (str_in database_name col_names) then _transform_names_dict xml_name
  else ret database_name.

(** Lines 323-328: the dictionary [database_attributes]. *)
Definition translate (col_names : list string) (xml_attributes : list (string * cell))
  : M (list (string * cell)) :=
  for_each xml_attributes
    (fun '(xml_name, xml_value) database_attributes =>
       database_name ← column_name col_names xml_name;
       ret (dict_set database_name xml_value database_attributes)) [].

(** Lines 332-340: the body of the second [try]. *)
Definition transaction (database_attributes : list (string * cell)) : M unit :=
  execute BeginTransaction;;
  for_each database_attributes
    (fun '(dat_name, dat_value) _ =>
       p ← get_posident;
       execute (Update dat_name dat_value p)) tt;;
  o ← get_osid;
  p ← get_posident;
  execute (Update "OS_ID" o p);;
  execute CommitTransaction;;
  d ← get_log_dir;
  if truthy d then
    p ← get_posident;
    log INFO "Radky v databazi u POSIdentu {} aktualizovany" [format_cell p]
  else ret tt.

(** Lines 331-348: the updates of one record, in one transaction. *)
Definition update_opsub (database_attributes : list (string * cell)) : M unit :=
  try_finally
    (try_except
       (transaction database_attributes)
       conn_Error
       (emit (EvPrint "failed!");;
        execute RollbackTransaction;;
        conn_close))
    conn_close.

(** Lines 290-348: what follows the classification of a record. *)
Definition persist (os : Element) : M unit :=
  read_identifiers os;;
  xml_attributes ← read_details os;
  col_names ← open_and_evolve;
  database_attributes ← translate col_names xml_attributes;
  update_opsub database_attributes.

(** The body of the loop over the records. *)
Definition process_os (os : Element) : M unit :=
  continue ← classify os;
  if continue : bool then ret tt else persist os.

(** [_save_attributes_to_db] *)
Definition _save_attributes_to_db (response_xml : string) : M (option StateVector) :=
  modify (set_locals no_locals);;
  root ← match fromstring self response_xml with
         | Some r => ret r
         | None => raise ParseError
         end;
  for_each (findall_desc root tag_os) (fun os _ => process_os os) tt;;
  d ← get_log_dir;
  if truthy d then v ← get_state_vector; ret (Some v)
  else ret None.

(** The body of [_query_service]. *)
Definition serve (ids : list Row) : M unit :=
  request_xml ← _draw_up_xml_request ids;
  response_xml ← _call_service request_xml;
  _save_attributes_to_db response_xml;;
  ret tt.

(** [_query_service]; its entry is recorded in the trace. *)
Definition _query_service (ids : list Row) : M unit :=
  emit (EvCall ids);;
  serve ids.

(** *** [query_requests] *)

(** [l[a:b]] *)
Definition py_slice {A} (l : list A) (a b : Z) : list A :=
  let n := Z.of_nat (length l) in
  let norm i := if i <? 0 then Z.max (i + n) 0 else Z.min i n in
  let a' := norm a in
  let b' := norm b in
  take (Z.to_nat (b' - a')) (drop (Z.to_nat a') l).

(** [range(0, n)] *)
Definition py_range (n : Z) : list Z := map Z.of_nat (seq 0 (Z.to_nat n)).

Definition Z_str (z : Z) : string := pretty z.

Definition log_state_vector : M unit :=
  d ← get_log_dir;
  if truthy d then
    v ← get_state_vector;
    log INFO "Pocet uspesne stazenych posidentu: {} " [Z_str (uspesne_stazeno v)];;
    v ← get_state_vector;
    log INFO "Neplatny identifikator: {}x." [Z_str (neplatny_identifikator v)];;
    v ← get_state_vector;
    log INFO "Expirovany identifikator: {}x." [Z_str (expirovany_identifikator v)];;
    v ← get_state_vector;
    log INFO "Opravneny subjekt neexistuje: {}x." [Z_str (opravneny_subjekt_neexistuje v)]
  else ret tt.

(** [query_requests]. [math.floor(len(ids) / max_num)] is the floor of the
    true quotient, [Z.div], for every length a list can have. *)
Definition query_requests (ids : list Row) : M unit :=
  let len := Z.of_nat (length ids) in
  let max_num := _max_num self in
  log_if_dir INFO "Pocet jedinecnych ID v seznamu: {}" [Z_str len];;
  (if len <=? max_num then
     _query_service ids;;
     log_if_dir INFO "Zpracovano v ramci 1 pozadavku." []
   else
     (if max_num =? 0 then raise ZeroDivisionError else ret tt);;
     let full_arrays := len / max_num in
     let rest := len mod max_num in
     for_each (py_range full_arrays)
       (fun i _ =>
          let start := i * max_num in
          let end_ := i * max_num + max_num in
          let whole_ids := py_slice ids start end_ in
          _query_service whole_ids) tt;;
     let ids_rest := py_slice ids (len - rest) len in
     divided_into ← match ids_rest with
                    | _ :: _ => _query_service ids_rest;; ret (full_arrays + 1)
                    | [] => ret full_arrays
                    end;
     log_if_dir INFO "Rozdeleno do {} pozadavku" [Z_str divided_into]);;
  log_state_vector.

(** [set_log_file] *)
Definition set_log_file (dir : string) : M unit :=
  modify (set_log_dir (Some dir));;
  (if log_file_ok self dir then ret tt else raise OSError);;
  modify (set_logging true);;
  modify (set_state_vector (Some (mkSV 0 0 0 0))).

End Methods.

(** * Properties *)

(** ** Reasoning about methods: relations every step preserves *)

Ltac unfold_monad := unfold mbind, M_bind, bind, mret, M_ret, ret, raise, get, modify, emit in *.

Section Preservation.

Variable R : State -> State -> Prop.
Hypothesis R_refl : forall s, R s s.
Hypothesis R_trans : forall s1 s2 s3, R s1 s2 -> R s2 s3 -> R s1 s3.

(** [m] relates the state it starts in to the state it ends in, whether it
    returns or raises. *)
Definition pres {A} (m : M A) : Prop :=
  forall s r s', m s = (r, s') -> R s s'.

Lemma pres_ret {A} (a : A) : pres (ret a).
Proof. intros s r s' H. inversion H; subst. apply R_refl. Qed.

Lemma pres_raise {A} (e : PyExc) : pres (@raise A e).
Proof. intros s r s' H. inversion H; subst. apply R_refl. Qed.

Lemma pres_get : pres get.
Proof. intros s r s' H. inversion H; subst. apply R_refl. Qed.

Lemma pres_modify (f : State -> State) : (forall s, R s (f s)) -> pres (modify f).
Proof. intros Hf s r s' H. inversion H; subst. apply Hf. Qed.

Lemma pres_bind {A B} (m : M A) (k : A -> M B) :
  pres m -> (forall a, pres (k a)) -> pres (m ≫= k).
Proof.
  intros Hm Hk s r s' H. unfold_monad.
  destruct (m s) as [[a|e] s1] eqn:E.
  - eapply R_trans; [eapply Hm; exact E | eapply Hk; exact H].
  - inversion H; subst. eapply Hm; exact E.
Qed.

Lemma pres_try_except {A} (m : M A) cls (h : M A) :
  pres m -> pres cls -> pres h -> pres (try_except m cls h).
Proof.
  intros Hm Hc Hh s r s' H. unfold try_except in H.
  destruct (m s) as [[a|e] s1] eqn:E.
  - inversion H; subst. eapply Hm; exact E.
  - destruct (cls s1) as [[c|e'] s2] eqn:C.
    + destruct (c e).
      * eapply R_trans; [eapply Hm; exact E|].
        eapply R_trans; [eapply Hc; exact C | eapply Hh; exact H].
      * inversion H; subst.
        eapply R_trans; [eapply Hm; exact E | eapply Hc; exact C].
    + inversion H; subst.
      eapply R_trans; [eapply Hm; exact E | eapply Hc; exact C].
Qed.

Lemma pres_try_finally {A} (m : M A) (f : M unit) :
  pres m -> pres f -> pres (try_finally m f).
Proof.
  intros Hm Hf s r s' H. unfold try_finally in H.
  destruct (m s) as [[a|e] s1] eqn:E;
    destruct (f s1) as [[u|e'] s2] eqn:F; inversion H; subst;
    (eapply R_trans; [eapply Hm; exact E | eapply Hf; exact F]).
Qed.

Lemma pres_for_each {A S} (l : list A) (body : A -> S -> M S) :
  (forall x acc, pres (body x acc)) -> forall acc, pres (for_each l body acc).
Proof.
  intros Hb. induction l as [|x l IH]; intros acc; simpl.
  - apply pres_ret.
  - apply pres_bind; [apply Hb | intros a; apply IH].
Qed.

End Preservation.

(** One step of a preservation proof: split the method along its syntax.
    [Hr] and [Ht] are reflexivity and transitivity of the relation. *)
Ltac pres_step Hr Ht :=
  lazymatch goal with
  | |- pres _ (_ ≫= _) => apply (pres_bind _ Ht); [| intros ?]
  | |- pres _ (ret _) => apply (pres_ret _ Hr)
  | |- pres _ (mret _) => apply (pres_ret _ Hr)
  | |- pres _ (raise _) => apply (pres_raise _ Hr)
  | |- pres _ get => apply (pres_get _ Hr)
  | |- pres _ (try_except _ _ _) => apply (pres_try_except _ Ht)
  | |- pres _ (try_finally _ _) => apply (pres_try_finally _ Ht)
  | |- pres _ (for_each _ _ _) => apply (pres_for_each _ Hr Ht); intros ? ?; cbv beta
  | |- pres _ (match ?x with _ => _ end) => destruct x
  | |- pres _ ((match ?x with _ => _ end) _) => destruct x; cbv beta
  | |- pres _ (let _ := _ in _) => cbv zeta
  end.

Ltac pres_steps Hr Ht := repeat (pres_step Hr Ht); try assumption.

(** The steps every method is made of, for a relation that the state
    changes below respect. *)
Section Frame.

Variable R : State -> State -> Prop.
Hypothesis R_refl : forall s, R s s.
Hypothesis R_trans : forall s1 s2 s3, R s1 s2 -> R s2 s3 -> R s1 s3.
Hypothesis R_locals : forall l s, R s (set_locals l s).
Hypothesis R_log : forall lvl msg args s, R s (add_event (EvLog lvl msg args) s).
Hypothesis R_print : forall line s, R s (add_event (EvPrint line) s).
Hypothesis R_post : forall x s, R s (add_event (EvPost x) s).
Hypothesis R_close : forall s, R s (set_txn None s).
Hypothesis R_execute : forall st, st <> AlterAddOsId -> pres R (execute st).

Variable self : CtiOs.

Lemma pres_get_log_dir : pres R get_log_dir.
Proof. unfold get_log_dir. pres_steps R_refl R_trans. Qed.

Lemma pres_log lvl msg args : pres R (log lvl msg args).
Proof.
  unfold log. pres_steps R_refl R_trans.
  apply pres_modify. intros s. apply R_log.
Qed.

Lemma pres_log_if_dir lvl msg args : pres R (log_if_dir lvl msg args).
Proof.
  unfold log_if_dir. pres_steps R_refl R_trans.
  - apply pres_get_log_dir.
  - apply pres_log.
Qed.

Lemma pres_get_state_vector : pres R get_state_vector.
Proof. unfold get_state_vector. pres_steps R_refl R_trans. Qed.

Lemma pres_set_posident v : pres R (set_posident v).
Proof. apply pres_modify. intros s. apply R_locals. Qed.

Lemma pres_set_osid v : pres R (set_osid v).
Proof. apply pres_modify. intros s. apply R_locals. Qed.

Lemma pres_set_conn : pres R set_conn.
Proof. apply pres_modify. intros s. apply R_locals. Qed.

Lemma pres_get_posident : pres R get_posident.
Proof. unfold get_posident. pres_steps R_refl R_trans. Qed.

Lemma pres_get_osid : pres R get_osid.
Proof. unfold get_osid. pres_steps R_refl R_trans. Qed.

Lemma pres_conn_Error : pres R conn_Error.
Proof. unfold conn_Error. pres_steps R_refl R_trans. Qed.

Lemma pres_conn_close : pres R conn_close.
Proof. apply pres_modify. apply R_close. Qed.

Lemma pres_find_text e t : pres R (find_text e t).
Proof. unfold find_text. pres_steps R_refl R_trans. Qed.

Lemma pres_description : pres R description.
Proof. unfold description. pres_steps R_refl R_trans. Qed.

Lemma pres_create_connection : pres R _create_connection.
Proof.
  unfold _create_connection. pres_steps R_refl R_trans.
  - apply pres_modify. apply R_close.
  - apply pres_log_if_dir.
Qed.

Lemma pres_read_identifiers os : pres R (read_identifiers os).
Proof.
  unfold read_identifiers. pres_steps R_refl R_trans;
    auto using pres_find_text, pres_set_posident, pres_set_osid.
Qed.

Lemma pres_read_details os : pres R (read_details os).
Proof. unfold read_details. pres_steps R_refl R_trans. Qed.

Lemma pres_transform_names_dict x : pres R (_transform_names_dict self x).
Proof.
  unfold _transform_names_dict. pres_steps R_refl R_trans; apply pres_log_if_dir.
Qed.

Lemma pres_column_name cols x : pres R (column_name self cols x).
Proof.
  unfold column_name. pres_steps R_refl R_trans. apply pres_transform_names_dict.
Qed.

Lemma pres_translate cols attrs : pres R (translate self cols attrs).
Proof.
  unfold translate. pres_steps R_refl R_trans. apply pres_column_name.
Qed.

Lemma pres_update_opsub attrs : pres R (update_opsub attrs).
Proof.
  unfold update_opsub, transaction. pres_steps R_refl R_trans;
    try (apply R_execute; discriminate);
    auto using pres_get_posident, pres_get_osid, pres_get_log_dir, pres_log,
      pres_conn_Error, pres_conn_close.
  apply pres_modify. intros s. apply R_print.
Qed.

(** The guarded addition of OS_ID, when the relation allows the ALTER. *)
Lemma pres_open_and_evolve :
  pres R (execute AlterAddOsId) -> pres R open_and_evolve.
Proof.
  intros Ha. unfold open_and_evolve, add_os_id_if_absent. pres_steps R_refl R_trans;
    try (apply R_execute; discriminate);
    auto using pres_create_connection, pres_set_conn, pres_description,
      pres_conn_Error, pres_conn_close, pres_log_if_dir.
Qed.

Lemma pres_persist os : pres R open_and_evolve -> pres R (persist self os).
Proof.
  intros Ho. unfold persist. pres_steps R_refl R_trans;
    auto using pres_read_identifiers, pres_read_details, pres_translate,
      pres_update_opsub.
Qed.

Section Counting.

Hypothesis R_open : pres R open_and_evolve.
Hypothesis R_incr : forall f, pres R (incr_state_vector f).

Lemma pres_classify os : pres R (classify os).
Proof.
  unfold classify. pres_steps R_refl R_trans;
    auto using pres_find_text, pres_set_posident, pres_log_if_dir.
Qed.

Lemma pres_process_os os : pres R (process_os self os).
Proof.
  unfold process_os. apply (pres_bind _ R_trans); [apply pres_classify|].
  intros [|]; [apply (pres_ret _ R_refl) | apply pres_persist, R_open].
Qed.

Lemma pres_save_attributes_to_db x : pres R (_save_attributes_to_db self x).
Proof.
  unfold _save_attributes_to_db. pres_steps R_refl R_trans;
    auto using pres_process_os, pres_get_log_dir, pres_get_state_vector.
  apply pres_modify. intros s. apply R_locals.
Qed.

Lemma pres_draw_up_xml_request ids : pres R (_draw_up_xml_request self ids).
Proof. unfold _draw_up_xml_request. pres_steps R_refl R_trans. Qed.

Lemma pres_call_service x : pres R (_call_service self x).
Proof.
  unfold _call_service. pres_steps R_refl R_trans.
  apply pres_modify. intros s. apply R_post.
Qed.

Lemma pres_serve ids : pres R (serve self ids).
Proof.
  unfold serve. pres_steps R_refl R_trans;
    auto using pres_draw_up_xml_request, pres_call_service, pres_save_attributes_to_db.
Qed.

Lemma pres_log_state_vector : pres R log_state_vector.
Proof.
  unfold log_state_vector. pres_steps R_refl R_trans;
    auto using pres_get_log_dir, pres_get_state_vector, pres_log.
Qed.

Section Calls.

Hypothesis R_call : forall ids s, R s (add_event (EvCall ids) s).

Lemma pres_query_service ids : pres R (_query_service self ids).
Proof.
  unfold _query_service. pres_steps R_refl R_trans.
  - apply pres_modify. intros s. apply R_call.
  - apply pres_serve.
Qed.

Lemma pres_query_requests ids : pres R (query_requests self ids).
Proof.
  unfold query_requests. cbv zeta. pres_steps R_refl R_trans;
    auto using pres_log_if_dir, pres_query_service, pres_log_state_vector.
Qed.

End Calls.

End Counting.

(** The statement of the caller's may write, and the connection commits. *)
Hypothesis R_caller : forall q ok s, R s (add_event (EvSql (CallerSql q) ok) s).
Hypothesis R_write : forall w s, R s (set_txn (Some w) s).
Hypothesis R_commit : forall s, R s (commit s).

Lemma pres_execute_fetchall sql : pres R (execute_fetchall self sql).
Proof.
  unfold execute_fetchall. pres_steps R_refl R_trans;
    apply pres_modify; intros s0; first [apply R_caller | apply R_write].
Qed.

Lemma pres_with_conn {A} (m : M A) : pres R m -> pres R (with_conn m).
Proof.
  intros Hm s r s' H. unfold with_conn in H.
  destruct (m s) as [[a|e] s1] eqn:E; inversion H; subst;
    (eapply R_trans; [eapply Hm; exact E|]); [apply R_commit | apply R_close].
Qed.

Lemma pres_set_ids_from_db sql : pres R (set_ids_from_db self sql).
Proof.
  unfold set_ids_from_db, _get_ids_from_db. pres_steps R_refl R_trans;
    auto using pres_create_connection, pres_with_conn, pres_execute_fetchall.
Qed.

End Frame.

(** ** Attribute names *)

Lemma str_upper_app (a b : string) : str_upper (a +:+ b) = str_upper a +:+ str_upper b.
Proof. induction a as [|c a IH]; simpl; [reflexivity | now rewrite IH]. Qed.

Lemma re_sub_AZ_app (a b : string) : re_sub_AZ (a +:+ b) = re_sub_AZ a +:+ re_sub_AZ b.
Proof.
  induction a as [|c a IH]; simpl; [reflexivity |].
  destruct (is_AZ c); simpl; now rewrite IH.
Qed.

Lemma upper_char_AZ (c : ascii) : is_AZ c = true -> upper_char c = c.
Proof.
  unfold is_AZ, upper_char, is_az. intros H.
  apply andb_prop in H as [H1 H2].
  apply Nat.leb_le in H1. apply Nat.leb_le in H2.
  destruct (97 <=? nat_of_ascii c)%nat eqn:E; [|reflexivity].
  apply Nat.leb_le in E. lia.
Qed.

Lemma transform_names_app (a b : string) :
  _transform_names (a +:+ b) = _transform_names a +:+ _transform_names b.
Proof. unfold _transform_names. now rewrite re_sub_AZ_app, str_upper_app. Qed.

(** C6 (as amended). The transliteration works letter by letter: every
    character is upper-cased, and every upper-case letter that is not the
    first character of the name is preceded by exactly one separator, also
    when it follows another upper-case letter. *)
Theorem transform_names_letterwise (p s : string) (c : ascii) :
  (is_AZ c = true -> p <> "") ->
  _transform_names (p +:+ String c s) =
  _transform_names p +:+ (if is_AZ c then "_" else "") +:+ String (upper_char c) (_transform_names s).
Proof.
  intros _. rewrite transform_names_app. f_equal.
  unfold _transform_names. simpl.
  destruct (is_AZ c) eqn:E; simpl; [|reflexivity].
  now rewrite (upper_char_AZ c E).
Qed.

Lemma transform_names_letterwise_witness :
  (is_AZ "D" = true -> "stav" <> "") /\ _transform_names "stavDat" = "STAV_DAT".
Proof.
  split; [discriminate |].
  exact (transform_names_letterwise "stav" "at" "D" (fun _ => ltac:(discriminate))).
Defined.

(** C6 (as stated) fails: a leading upper-case letter gets a separator too,
    so StavDat yields _STAV_DAT, and a run of upper-case letters gets one
    separator per letter, so pOSIdent yields P_O_S_IDENT. *)
Lemma transform_names_StavDat :
  _transform_names "StavDat" = "_STAV_DAT"
  /\ _transform_names "StavDat" <> "STAV_DAT"
  /\ _transform_names "pOSIdent" = "P_O_S_IDENT".
Proof. repeat split; [discriminate]. Qed.

Lemma str_in_spec (x : string) (l : list string) : str_in x l = true <-> x ∈ l.
Proof.
  unfold str_in. rewrite existsb_exists. split.
  - intros (y & Hy & E). apply String.eqb_eq in E. subst. now apply list_elem_of_In.
  - intros H. exists x. split; [now apply list_elem_of_In | apply String.eqb_refl].
Qed.

(** The instance can log: [set_log_file] has been called. *)
Definition log_ready (s : State) : Prop :=
  exists d, log_dir s = Some d /\ logging s = true.

Lemma log_if_dir_ready lvl msg args s :
  log_ready s -> exists s', log_if_dir lvl msg args s = (Ok tt, s') /\ log_ready s'.
Proof.
  intros (d & Hd & Hl). unfold log_if_dir, get_log_dir, log. unfold_monad.
  rewrite Hd. destruct (truthy d).
  - rewrite Hl. eexists. split; [reflexivity|]. exists d. now split.
  - eexists. split; [reflexivity|]. exists d. now split.
Qed.

(** C7. Translation of an attribute name is a two-stage resolution: the
    mechanical name when it is a known column; otherwise the value the
    mapping table holds for the original name; and CtiOsError (attribute
    cannot be converted) when the table does not load or has no such key. *)
Theorem column_name_two_stage (self : CtiOs) (col_names : list string) (xml_name : string)
    (s : State) :
  log_ready s ->
  (_transform_names xml_name ∈ col_names ->
     column_name self col_names xml_name s = (Ok (_transform_names xml_name), s))
  /\ (_transform_names xml_name ∉ col_names ->
      forall dictionary database_name,
        read_csv_as_dictionary self = Some dictionary ->
        dictionary !! xml_name = Some database_name ->
        column_name self col_names xml_name s = (Ok database_name, s))
  /\ (_transform_names xml_name ∉ col_names ->
      (forall dictionary, read_csv_as_dictionary self = Some dictionary ->
                          dictionary !! xml_name = None) ->
      exists s', column_name self col_names xml_name s = (Raise (CtiOsError msg_unmappable), s')).
Proof.
  intros Hready. unfold column_name. repeat split.
  - intros Hin. apply str_in_spec in Hin. now rewrite Hin.
  - intros Hnin dictionary database_name Hd Hk.
    destruct (str_in _ col_names) eqn:E; [apply str_in_spec in E; contradiction|].
    simpl. unfold _transform_names_dict. now rewrite Hd, Hk.
  - intros Hnin Hmiss.
    destruct (str_in _ col_names) eqn:E; [apply str_in_spec in E; contradiction|].
    simpl. unfold _transform_names_dict.
    destruct (log_if_dir_ready EXCEPTION msg_unmappable [] s Hready) as (s' & Hlog & _).
    exists s'.
    destruct (read_csv_as_dictionary self) as [dictionary|] eqn:Hd.
    + rewrite (Hmiss dictionary eq_refl). unfold_monad. now rewrite Hlog.
    + unfold_monad. now rewrite Hlog.
Qed.

(** ** Identifier selection *)

#[local] Instance Table_eq_dec : EqDecision Table.
Proof. solve_decision. Defined.

(** The rows the store answers to a query: every ID when no statement is
    given; a statement of the caller's is a query when it leaves the table
    as it is. *)
Definition query_rows (self : CtiOs) (sql : option string) (t : Table) : option (list Row) :=
  match sql with
  | None => select_id t
  | Some q =>
      if String.eqb q default_sql then select_id t
      else match fetchall self q (Some t) with
           | Some (rows, db') => if decide (db' = Some t) then Some rows else None
           | None => None
           end
  end.

(** C8. [set_ids_from_db] returns the selected rows without duplicates
    (every ID of the table when no statement is given), and raises
    CtiOsError (empty result) exactly when fewer than two distinct rows
    were selected. *)
Theorem set_ids_from_db_spec (self : CtiOs) (sql : option string) (s : State) (t : Table)
    (rows : list Row) :
  db_openable s = true ->
  opsub s = Some t ->
  query_rows self sql t = Some rows ->
  let ids := elements (list_to_set rows : gset Row) in
  NoDup ids
  /\ (forall r, r ∈ ids <-> r ∈ rows)
  /\ (sql = None -> select_id t = Some rows)
  /\ exists s', opsub s' = opsub s
       /\ ((length ids < 2)%nat ->
           set_ids_from_db self sql s = (Raise (CtiOsError "Query has an empty result!"), s'))
       /\ ((2 <= length ids)%nat -> set_ids_from_db self sql s = (Ok ids, s')).
Proof.
  intros Hopen Ht Hq ids. split; [apply NoDup_elements|].
  split; [intros r; unfold ids; rewrite elem_of_elements; apply elem_of_list_to_set|].
  split; [intros ->; exact Hq|].
  set (q := match sql with Some q => q | None => default_sql end).
  assert (Hc : exists pending,
             caller_sql self q (Some t) = Some (rows, pending)
             /\ (pending = None \/ pending = Some (Some t))).
  { unfold caller_sql. destruct (String.eqb q default_sql) eqn:Eq.
    - assert (Hs : select_id t = Some rows).
      { unfold q in Eq. destruct sql as [q0|]; [|exact Hq].
        simpl in Hq. now rewrite Eq in Hq. }
      rewrite Hs. simpl. eauto.
    - destruct sql as [q0|]; [|unfold q in Eq; now rewrite String.eqb_refl in Eq].
      unfold q in *. simpl in Hq. rewrite Eq in Hq.
      destruct (fetchall self q0 (Some t)) as [[rows' db']|]; [|discriminate Hq].
      destruct (decide (db' = Some t)) as [->|]; [|discriminate Hq].
      inversion Hq; subst rows'. simpl. eauto. }
  destruct Hc as (pending & Hc & Hp).
  assert (Hrun : exists s1, opsub s1 = opsub s
                            /\ _get_ids_from_db self q s = (Ok ids, s1)).
  { unfold _get_ids_from_db, try_except, with_conn, _create_connection, execute_fetchall.
    unfold_monad. rewrite Hopen.
    change (current_db (set_txn None s)) with (opsub s). rewrite Ht, Hc.
    destruct Hp as [->| ->]; (eexists; split; [|reflexivity]); simpl;
      first [reflexivity | congruence]. }
  destruct Hrun as (s1 & Ho & Hrun). exists s1. split; [exact Ho|].
  unfold set_ids_from_db. fold q. unfold_monad. rewrite Hrun.
  split; intros Hlen.
  - destruct (Z.of_nat (length ids) <=? 1) eqn:E; [reflexivity|].
    apply Z.leb_gt in E. lia.
  - destruct (Z.of_nat (length ids) <=? 1) eqn:E; [|reflexivity].
    apply Z.leb_le in E. lia.
Qed.

(** ** Batching *)

(** The batches [_query_service] was entered with, in order. *)
Definition batches_of (tr : list Event) : list (list Row) :=
  omap (fun e => match e with EvCall b => Some b | _ => None end) tr.

(** The batches [query_requests] asks for when nothing raises. *)
Definition plan (max_num : Z) (ids : list Row) : list (list Row) :=
  let len := Z.of_nat (length ids) in
  if len <=? max_num then [ids]
  else
    let ids_rest := py_slice ids (len - len mod max_num) len in
    map (fun i => py_slice ids (i * max_num) (i * max_num + max_num))
        (py_range (len / max_num))
    ++ match ids_rest with
       | _ :: _ => [ids_rest]
       | [] => []
       end.

Lemma py_slice_take_drop {A} (l : list A) (a b : nat) :
  (a <= b)%nat -> py_slice l (Z.of_nat a) (Z.of_nat b) = take (b - a) (drop a l).
Proof.
  intros Hab. unfold py_slice.
  destruct (Z.of_nat a <? 0) eqn:Ea; [apply Z.ltb_lt in Ea; lia|].
  destruct (Z.of_nat b <? 0) eqn:Eb; [apply Z.ltb_lt in Eb; lia|].
  destruct (le_lt_dec (length l) a) as [Hla|Hla].
  - rewrite (drop_ge l a) by lia.
    replace (Z.to_nat (Z.min (Z.of_nat a) (Z.of_nat (length l)))) with (length l) by lia.
    rewrite drop_all. now rewrite !take_nil.
  - replace (Z.to_nat (Z.min (Z.of_nat a) (Z.of_nat (length l)))) with a by lia.
    destruct (le_lt_dec (length l) b) as [Hlb|Hlb].
    + replace (Z.to_nat (Z.min (Z.of_nat b) (Z.of_nat (length l)) - Z.of_nat a))
        with (length l - a)%nat by lia.
      rewrite !take_ge; [reflexivity | rewrite length_drop; lia | rewrite length_drop; lia].
    + f_equal. lia.
Qed.

Lemma take_add_drop {A} (l : list A) (a b : nat) :
  take (a + b) l = take a l ++ take b (drop a l).
Proof.
  revert l. induction a as [|a IH]; intros l; simpl; [reflexivity|].
  destruct l as [|x l]; simpl; [now rewrite take_nil | now rewrite IH].
Qed.

(** The full batches: [q] slices of [m] identifiers each. *)
Definition full_batches {A} (m q : nat) (l : list A) : list (list A) :=
  map (fun k => take m (drop (k * m) l)) (seq 0 q).

Lemma concat_full_batches {A} (m q : nat) (l : list A) :
  concat (full_batches m q l) = take (q * m) l.
Proof.
  unfold full_batches. induction q as [|q IH]; [reflexivity|].
  rewrite seq_S, map_app, concat_app, IH. simpl. rewrite app_nil_r.
  rewrite <- take_add_drop. f_equal. lia.
Qed.

Lemma length_full_batches {A} (m q : nat) (l : list A) (b : list A) :
  (q * m <= length l)%nat -> b ∈ full_batches m q l -> length b = m.
Proof.
  unfold full_batches. intros Hq Hb. apply list_elem_of_fmap in Hb as (k & -> & Hk).
  apply list_elem_of_In, in_seq in Hk. rewrite length_take, length_drop. nia.
Qed.

Lemma plan_full_batches (max_num : Z) (ids : list Row) :
  0 < max_num ->
  map (fun i => py_slice ids (i * max_num) (i * max_num + max_num))
      (py_range (Z.of_nat (length ids) / max_num))
  = full_batches (Z.to_nat max_num) (length ids / Z.to_nat max_num) ids.
Proof.
  intros HM. unfold py_range, full_batches. rewrite map_map.
  replace (Z.to_nat (Z.of_nat (length ids) / max_num))
    with (length ids / Z.to_nat max_num)%nat.
  2:{ rewrite Z2Nat.inj_div by lia. now rewrite Nat2Z.id. }
  apply map_ext. intros k.
  replace (Z.of_nat k * max_num) with (Z.of_nat (k * Z.to_nat max_num)) by lia.
  replace (Z.of_nat (k * Z.to_nat max_num) + max_num)
    with (Z.of_nat (k * Z.to_nat max_num + Z.to_nat max_num)) by lia.
  rewrite py_slice_take_drop by lia. f_equal. lia.
Qed.

Lemma plan_rest (max_num : Z) (ids : list Row) :
  0 < max_num ->
  py_slice ids (Z.of_nat (length ids) - Z.of_nat (length ids) mod max_num)
           (Z.of_nat (length ids))
  = drop (length ids / Z.to_nat max_num * Z.to_nat max_num) ids.
Proof.
  intros HM. set (m := Z.to_nat max_num). set (n := length ids).
  assert (Hm : (0 < m)%nat) by (unfold m; lia).
  assert (Hmod : Z.of_nat n mod max_num = Z.of_nat (n mod m)).
  { unfold m. rewrite Nat2Z.inj_mod. now rewrite Z2Nat.id by lia. }
  assert (Hdiv : (n = n / m * m + n mod m)%nat).
  { rewrite (Nat.div_mod_eq n m) at 1. lia. }
  rewrite Hmod.
  replace (Z.of_nat n - Z.of_nat (n mod m)) with (Z.of_nat (n / m * m)) by lia.
  rewrite py_slice_take_drop by lia.
  apply take_ge. rewrite length_drop. fold n. lia.
Qed.

(** What [plan] is, in terms of [take] and [drop]. *)
Lemma plan_spec (max_num : Z) (ids : list Row) :
  0 < max_num ->
  let m := Z.to_nat max_num in
  let q := (length ids / m)%nat in
  plan max_num ids =
    if Z.of_nat (length ids) <=? max_num then [ids]
    else full_batches m q ids
         ++ match drop (q * m) ids with _ :: _ => [drop (q * m) ids] | [] => [] end.
Proof.
  intros HM m q. unfold plan.
  destruct (Z.of_nat (length ids) <=? max_num); [reflexivity|].
  now rewrite plan_full_batches, plan_rest by assumption.
Qed.

Lemma plan_concat (max_num : Z) (ids : list Row) :
  0 < max_num -> concat (plan max_num ids) = ids.
Proof.
  intros HM. rewrite plan_spec by assumption. cbv zeta.
  destruct (Z.of_nat (length ids) <=? max_num); [simpl; apply app_nil_r|].
  rewrite concat_app, concat_full_batches.
  set (k := (length ids / Z.to_nat max_num * Z.to_nat max_num)%nat).
  assert (Hr : concat (match drop k ids with _ :: _ => [drop k ids] | [] => [] end)
               = drop k ids).
  { destruct (drop k ids); simpl; [reflexivity | now rewrite app_nil_r]. }
  rewrite Hr. apply take_drop.
Qed.

Lemma plan_sizes (max_num : Z) (ids : list Row) :
  0 < max_num ->
  Forall (fun b => Z.of_nat (length b) <= max_num /\ (ids <> [] -> b <> [])) (plan max_num ids).
Proof.
  intros HM. rewrite plan_spec by assumption. cbv zeta.
  set (m := Z.to_nat max_num). set (n := length ids).
  assert (Hm : (0 < m)%nat) by (unfold m; lia).
  assert (Hdiv : (n = n / m * m + n mod m)%nat).
  { rewrite (Nat.div_mod_eq n m) at 1. lia. }
  assert (Hlt : (n mod m < m)%nat) by (apply Nat.mod_upper_bound; lia).
  destruct (Z.of_nat n <=? max_num) eqn:E.
  - apply Z.leb_le in E. repeat constructor; [exact E | auto].
  - apply Forall_app. split.
    + apply Forall_forall. intros b Hb.
      apply length_full_batches in Hb; [|fold n; lia].
      split; [lia|]. intros _ ->. simpl in Hb. lia.
    + destruct (drop (n / m * m) ids) as [|x r] eqn:D; constructor; [|constructor].
      split; [|discriminate].
      rewrite <- D, length_drop. fold n. lia.
Qed.

Lemma plan_all_but_last (max_num : Z) (ids : list Row) (i : nat) (b : list Row) :
  0 < max_num ->
  plan max_num ids !! i = Some b ->
  (S i < length (plan max_num ids))%nat ->
  Z.of_nat (length b) = max_num.
Proof.
  intros HM. rewrite plan_spec by assumption. cbv zeta.
  set (m := Z.to_nat max_num). set (n := length ids).
  assert (Hdiv : (n = n / m * m + n mod m)%nat).
  { rewrite (Nat.div_mod_eq n m) at 1. lia. }
  destruct (Z.of_nat n <=? max_num); [simpl; lia|].
  intros Hb Hi.
  assert (Hin : b ∈ full_batches m (n / m) ids).
  { rewrite lookup_app_l in Hb; [eapply list_elem_of_lookup_2; exact Hb|].
    rewrite length_app in Hi.
    destruct (drop (n / m * m) ids); simpl in Hi; lia. }
  apply length_full_batches in Hin; [|fold n; lia]. lia.
Qed.

(** *** The batches a run asks for *)

Lemma bind_inv {A B} (m : M A) (k : A -> M B) s r s' :
  (m ≫= k) s = (r, s') ->
  (exists a s1, m s = (Ok a, s1) /\ k a s1 = (r, s'))
  \/ (exists e, m s = (Raise e, s') /\ r = Raise e).
Proof.
  unfold_monad. destruct (m s) as [[a|e] s1]; intros H.
  - left. eauto.
  - right. inversion H; subst. eauto.
Qed.

Lemma engine_trace st s s' : engine st s = Some s' -> trace s' = trace s.
Proof.
  destruct st; simpl; intros H;
    repeat match type of H with
           | match ?x with _ => _ end = _ => destruct x
           end; inversion H; subst; reflexivity.
Qed.

Lemma batches_of_app tr1 tr2 : batches_of (tr1 ++ tr2) = batches_of tr1 ++ batches_of tr2.
Proof. apply omap_app. Qed.

(** Same batches before and after. *)
Definition same_batches (s s' : State) : Prop :=
  batches_of (trace s') = batches_of (trace s).

Lemma same_batches_refl s : same_batches s s.
Proof. reflexivity. Qed.

Lemma same_batches_trans s1 s2 s3 :
  same_batches s1 s2 -> same_batches s2 s3 -> same_batches s1 s3.
Proof. unfold same_batches. congruence. Qed.

Lemma same_batches_event e s :
  (forall b, e <> EvCall b) -> same_batches s (add_event e s).
Proof.
  intros He. unfold same_batches. simpl. rewrite batches_of_app.
  destruct e; simpl; try apply app_nil_r. exfalso. eapply He. reflexivity.
Qed.

Lemma same_batches_execute st : pres same_batches (execute st).
Proof.
  intros s r s' H. unfold execute in H.
  destruct (engine st s) as [s1|] eqn:E; inversion H; subst.
  - unfold same_batches. simpl. rewrite batches_of_app, (engine_trace _ _ _ E).
    apply app_nil_r.
  - apply same_batches_event. discriminate.
Qed.

Lemma same_batches_incr f : pres same_batches (incr_state_vector f).
Proof.
  unfold incr_state_vector.
  apply (pres_bind _ same_batches_trans).
  - apply pres_get_state_vector; [exact same_batches_refl | exact same_batches_trans].
  - intros v. apply pres_modify. reflexivity.
Qed.

Ltac same_batches_side :=
  first [ exact same_batches_refl
        | exact same_batches_trans
        | exact same_batches_incr
        | intros; apply same_batches_execute
        | intros; apply same_batches_event; discriminate
        | intros; reflexivity ].

Lemma same_batches_open : pres same_batches open_and_evolve.
Proof. apply pres_open_and_evolve; same_batches_side. Qed.

Lemma same_batches_serve self ids : pres same_batches (serve self ids).
Proof. apply pres_serve; first [apply same_batches_open | same_batches_side]. Qed.

Lemma same_batches_log_if_dir lvl msg args : pres same_batches (log_if_dir lvl msg args).
Proof. apply pres_log_if_dir; same_batches_side. Qed.

Lemma same_batches_log_state_vector : pres same_batches log_state_vector.
Proof. apply pres_log_state_vector; same_batches_side. Qed.

(** [_query_service] is entered once with its batch, whatever happens next. *)
Lemma query_service_batches self ids s r s' :
  _query_service self ids s = (r, s') ->
  batches_of (trace s') = batches_of (trace s) ++ [ids].
Proof.
  unfold _query_service. intros H.
  apply bind_inv in H as [(a & s1 & H1 & H2) | (e & H1 & _)].
  - inversion H1; subst. apply same_batches_serve in H2.
    rewrite H2. simpl. now rewrite batches_of_app.
  - inversion H1.
Qed.

(** The loop over the full batches asks for a prefix of them, and for all
    of them when it returns. *)
Lemma for_each_batches self (f : Z -> list Row) (l : list Z) s r s' :
  for_each l (fun i _ => _query_service self (f i)) tt s = (r, s') ->
  exists n, batches_of (trace s') = batches_of (trace s) ++ map f (take n l)
            /\ (forall u, r = Ok u -> take n l = l).
Proof.
  revert s. induction l as [|i l IH]; intros s H; simpl in H.
  - inversion H; subst. exists 0%nat. simpl. split; [now rewrite app_nil_r | auto].
  - apply bind_inv in H as [(a & s1 & H1 & H2) | (e & H1 & Hr)].
    + destruct a. apply query_service_batches in H1. apply IH in H2 as (n & Hn & Hall).
      exists (S n). simpl. split.
      * rewrite Hn, H1, <- app_assoc. reflexivity.
      * intros u Hu. f_equal. eapply Hall. exact Hu.
    + apply query_service_batches in H1. exists 1%nat. simpl. rewrite take_0. simpl.
      split; [exact H1 | intros u Hu; congruence].
Qed.

(** A run enters [_query_service] with a prefix of [plan], and with all
    of it when the run returns. *)
Lemma query_requests_batches self ids s r s' :
  query_requests self ids s = (r, s') ->
  exists bs rest,
    batches_of (trace s') = batches_of (trace s) ++ bs
    /\ plan (_max_num self) ids = bs ++ rest
    /\ (r = Ok tt -> rest = []).
Proof.
  unfold query_requests, plan. cbv zeta. intros H.
  apply bind_inv in H as [(a & s1 & H1 & H) | (e & H1 & Hr)].
  2:{ apply same_batches_log_if_dir in H1. exists [], (plan (_max_num self) ids).
      rewrite app_nil_r. repeat split; [exact H1 | subst; discriminate]. }
  apply same_batches_log_if_dir in H1. rewrite <- H1. clear H1 a.
  assert (Hend : forall s2 bs,
             batches_of (trace s2) = batches_of (trace s1) ++ bs ->
             log_state_vector s2 = (r, s') ->
             batches_of (trace s') = batches_of (trace s1) ++ bs).
  { intros s2 bs Hb Hl. apply same_batches_log_state_vector in Hl.
    rewrite Hl. exact Hb. }
  destruct (Z.of_nat (length ids) <=? _max_num self).
  - apply bind_inv in H as [(a & s2 & H2 & H) | (e & H2 & Hr)].
    + apply bind_inv in H2 as [([] & s3 & H3 & H2) | (e & H3 & Hr)].
      * apply query_service_batches in H3. apply same_batches_log_if_dir in H2.
        unfold same_batches in H2. rewrite H3 in H2. exists [ids], [].
        repeat split; auto. eapply Hend; eauto.
      * discriminate Hr.
    + apply bind_inv in H2 as [([] & s3 & H3 & H2) | (e' & H3 & Hr')].
      * apply query_service_batches in H3. apply same_batches_log_if_dir in H2.
        unfold same_batches in H2. rewrite H3 in H2. exists [ids], []. subst.
        repeat split; auto.
      * apply query_service_batches in H3. exists [ids], []. subst.
        repeat split; auto.
  - set (f := fun i => py_slice ids (i * _max_num self) (i * _max_num self + _max_num self)) in *.
    set (l := py_range (Z.of_nat (length ids) / _max_num self)) in *.
    set (ids_rest := py_slice ids (Z.of_nat (length ids)
                                   - Z.of_nat (length ids) mod _max_num self)
                              (Z.of_nat (length ids))) in *.
    set (tail := match ids_rest with _ :: _ => [ids_rest] | [] => [] end).
    assert (Hbody : forall r2 s2,
      ((if _max_num self =? 0 then raise ZeroDivisionError else ret tt);;
       for_each l (fun i (_ : unit) => _query_service self (f i)) tt;;
       divided_into ← match ids_rest with
                      | _ :: _ => _query_service self ids_rest;;
                                  ret (Z.of_nat (length ids) / _max_num self + 1)
                      | [] => ret (Z.of_nat (length ids) / _max_num self)
                      end;
       log_if_dir INFO "Rozdeleno do {} pozadavku" [Z_str divided_into]) s1 = (r2, s2) ->
      exists bs rest, batches_of (trace s2) = batches_of (trace s1) ++ bs
                      /\ map f l ++ tail = bs ++ rest
                      /\ (r2 = Ok tt -> rest = [])).
    { intros r2 s2 Hb.
      apply bind_inv in Hb as [(a & s3 & H3 & Hb) | (e & H3 & Hr)].
      2:{ destruct (_max_num self =? 0); inversion H3; subst.
          exists [], (map f l ++ tail). rewrite app_nil_r.
          repeat split; auto. discriminate. }
      assert (s3 = s1) by (destruct (_max_num self =? 0); inversion H3; reflexivity).
      subst s3. clear H3 a.
      apply bind_inv in Hb as [(a & s3 & H3 & Hb) | (e & H3 & Hr)].
      2:{ apply for_each_batches in H3 as (n & Hn & _).
          exists (map f (take n l)), (map f (drop n l) ++ tail).
          split; [exact Hn|]. split; [|subst; discriminate].
          rewrite app_assoc, <- map_app, take_drop. reflexivity. }
      apply for_each_batches in H3 as (n & Hn & Hall).
      rewrite (Hall a eq_refl) in Hn. clear Hall n a.
      apply bind_inv in Hb as [(d & s4 & H4 & Hb) | (e & H4 & Hr)].
      - apply same_batches_log_if_dir in Hb.
        exists (map f l ++ tail), []. rewrite app_nil_r.
        split; [|auto]. rewrite Hb. unfold tail.
        destruct ids_rest as [|x xs].
        + inversion H4; subst. now rewrite app_nil_r.
        + apply bind_inv in H4 as [(a & s5 & H5 & H4) | (e & H5 & Hr)];
            [|discriminate].
          inversion H4; subst. apply query_service_batches in H5.
          rewrite H5, Hn, <- app_assoc. reflexivity.
      - subst r2. unfold tail. destruct ids_rest as [|x xs]; [inversion H4|].
        apply bind_inv in H4 as [(a & s5 & H5 & H4) | (e' & H5 & Hr)];
          [inversion H4|].
        apply query_service_batches in H5.
        exists (map f l ++ [x :: xs]), []. rewrite app_nil_r.
        split; [|auto]. rewrite H5, Hn, <- app_assoc. reflexivity. }
    apply bind_inv in H as [(a & s2 & H2 & H) | (e & H2 & Hr)].
    + apply Hbody in H2 as (bs & rest & Hb & Hp & Hrest).
      destruct a. exists bs, rest.
      split; [eapply Hend; eauto|]. split; [|auto].
      exact Hp.
    + apply Hbody in H2 as (bs & rest & Hb & Hp & Hrest).
      exists bs, rest. subst r.
      split; [exact Hb|]. split; [|discriminate].
      exact Hp.
Qed.

(** ** A small store and a small service, for the examples *)

Module Scenario.

Definition leaf (t x : string) : Element := Elem (ns +:+ t) (Some x) [].

(** A record of a resolved subject. *)
Definition os_ok (p o : string) (attrs : list (string * string)) : Element :=
  Elem tag_os None
    [leaf "pOSIdent" p; leaf "osId" o;
     Elem tag_osDetail None (map (fun '(k, v) => leaf k v) attrs)].

(** A record with an error marker. *)
Definition os_err (p e : string) : Element :=
  Elem tag_os None [leaf "pOSIdent" p; leaf "chybaPOSIdent" e].

(** A record that has both an error marker and the payload of a subject. *)
Definition os_err_detail (p e o : string) (attrs : list (string * string)) : Element :=
  Elem tag_os None
    [leaf "pOSIdent" p; leaf "chybaPOSIdent" e; leaf "osId" o;
     Elem tag_osDetail None (map (fun '(k, v) => leaf k v) attrs)].

Definition response (records : list Element) : Element :=
  Elem (ns +:+ "GenerujCenoveUdajeDleKuResponse") None records.

Definition record_of (id : string) : option Element :=
  if String.eqb id "101" then Some (os_ok "101" "9001" [("nazev", "Alfa")])
  else if String.eqb id "102" then Some (os_err "102" "NEPLATNY_IDENTIFIKATOR")
  else if String.eqb id "103" then Some (os_ok "103" "9003" [("nazev", "Gama")])
  else if String.eqb id "104" then Some (os_ok "104" "9004" [("prijmeni", "Delta")])
  else if String.eqb id "105" then
    Some (os_err_detail "105" "JINA_CHYBA" "9005" [("nazev", "Epsilon")])
  else None.

(** The request document is the rendered list of identifier elements. *)
Definition render (_ _ posidents : string) : string := posidents.

Definition tagged (id : string) : string := "<v2:pOSIdent>" +:+ id +:+ "</v2:pOSIdent>".

(** The service answers the requests below with one record per identifier,
    and a request for 101 and 103 together with the record of 101 alone. *)
Definition parse (doc : string) : option Element :=
  let answer ids := Some (response (omap record_of ids)) in
  if String.eqb doc (tagged "101") then answer ["101"]
  else if String.eqb doc (tagged "104") then answer ["104"]
  else if String.eqb doc (tagged "105") then answer ["105"]
  else if String.eqb doc (tagged "101" +:+ tagged "102") then answer ["101"; "102"]
  else if String.eqb doc (tagged "103") then answer ["103"]
  else if String.eqb doc (tagged "101" +:+ tagged "104") then answer ["101"; "104"]
  else if String.eqb doc (tagged "101" +:+ tagged "102" +:+ tagged "103")
       then answer ["101"; "102"; "103"]
  else if String.eqb doc (tagged "101" +:+ tagged "103") then answer ["101"]
  else None.

(** The attribute map names a column PRIJMENI that table OPSUB lacks. *)
Definition attribute_map : gmap string string :=
  {[ "prijmeni" := "PRIJMENI"; "StavDat" := "STAV_DATUM" ]}.

Definition ctios (max_num : Z) : CtiOs :=
  mkCtiOs "user" "secret" max_num render Some parse (Some attribute_map)
          (fun _ _ => None) (fun _ => true).

Definition opsub0 : Table :=
  mkTable ["ID"; "NAZEV"]
          [[Some "101"; None]; [Some "102"; None]; [Some "103"; None];
           [Some "104"; None]; [Some "105"; None]; [Some "101"; None]].

(** The instance as [__init__] leaves it. *)
Definition fresh : State :=
  mkState None false None no_locals true (Some opsub0) None [].

(** The instance after [set_log_file]. *)
Definition ready : State :=
  mkState (Some "/tmp") true (Some (mkSV 0 0 0 0)) no_locals true (Some opsub0) None [].

Definition id (x : string) : Row := [Some x].

End Scenario.

(** ** C1: partition into batches *)

(** C1 (as amended). For a non-empty identifier list and a maximum batch
    size above zero, the batches a run asks for are consecutive slices of
    the list: none is empty, none is longer than the maximum, every batch
    before the last has exactly the maximum size, and, when the run
    returns, together they are the list. A run that raises has asked for
    the first of these batches only. *)
Theorem query_requests_partition (self : CtiOs) (ids : list Row) (s s' : State)
    (r : Res unit) :
  0 < _max_num self ->
  ids <> [] ->
  query_requests self ids s = (r, s') ->
  exists bs rest : list (list Row),
    batches_of (trace s') = batches_of (trace s) ++ bs
    /\ concat bs ++ concat rest = ids
    /\ (r = Ok tt -> concat bs = ids)
    /\ Forall (fun b => b <> [] /\ Z.of_nat (length b) <= _max_num self) bs
    /\ (forall i b, bs !! i = Some b -> (S i < length bs)%nat ->
                    Z.of_nat (length b) = _max_num self).
Proof.
  intros HM Hne Hrun.
  destruct (query_requests_batches self ids s r s' Hrun) as (bs & rest & Hb & Hp & Hr).
  exists bs, rest. split; [exact Hb|].
  pose proof (plan_concat (_max_num self) ids HM) as Hc.
  pose proof (plan_sizes (_max_num self) ids HM) as Hs.
  rewrite Hp in Hc, Hs. rewrite concat_app in Hc.
  split; [exact Hc|]. split.
  - intros Hok. rewrite (Hr Hok) in Hc. simpl in Hc. now rewrite app_nil_r in Hc.
  - split.
    + apply Forall_app in Hs as [Hs _].
      eapply Forall_impl; [exact Hs|]. intros b [H1 H2]. split; auto.
    + intros i b Hi Hlt.
      apply (plan_all_but_last (_max_num self) ids i b HM).
      * rewrite Hp. rewrite lookup_app_l; [exact Hi | lia].
      * rewrite Hp, length_app. lia.
Qed.

(** The run of the design document: identifiers 101, 102, 103 with batches
    of at most two. *)
Lemma query_requests_partition_witness :
  0 < _max_num (Scenario.ctios 2)
  /\ [Scenario.id "101"; Scenario.id "102"; Scenario.id "103"] <> []
  /\ exists bs rest : list (list Row),
       batches_of (trace (query_requests (Scenario.ctios 2)
                            [Scenario.id "101"; Scenario.id "102"; Scenario.id "103"]
                            Scenario.ready).2)
       = batches_of (trace Scenario.ready) ++ bs
       /\ concat bs ++ concat rest
          = [Scenario.id "101"; Scenario.id "102"; Scenario.id "103"]
       /\ ((query_requests (Scenario.ctios 2)
              [Scenario.id "101"; Scenario.id "102"; Scenario.id "103"]
              Scenario.ready).1 = Ok tt ->
           concat bs = [Scenario.id "101"; Scenario.id "102"; Scenario.id "103"])
       /\ Forall (fun b => b <> [] /\ Z.of_nat (length b) <= _max_num (Scenario.ctios 2)) bs
       /\ (forall i b, bs !! i = Some b -> (S i < length bs)%nat ->
                       Z.of_nat (length b) = _max_num (Scenario.ctios 2)).
Proof.
  split; [reflexivity|]. split; [discriminate|].
  apply (query_requests_partition (Scenario.ctios 2)
           [Scenario.id "101"; Scenario.id "102"; Scenario.id "103"] Scenario.ready).
  - reflexivity.
  - discriminate.
  - apply surjective_pairing.
Defined.

(** That run returns, after two calls of the service. *)
Example query_requests_three_ids :
  let run := query_requests (Scenario.ctios 2)
               [Scenario.id "101"; Scenario.id "102"; Scenario.id "103"] Scenario.ready in
  run.1 = Ok tt
  /\ batches_of (trace run.2)
     = [[Scenario.id "101"; Scenario.id "102"]; [Scenario.id "103"]]
  /\ state_vector run.2 = Some (mkSV 1 0 0 2).
Proof. vm_compute. repeat split. Qed.

(** C1 (as stated) fails for the empty list: the run asks for one batch,
    and that batch is empty. *)
Lemma query_requests_empty_batch :
  0 < _max_num (Scenario.ctios 2)
  /\ batches_of (trace (query_requests (Scenario.ctios 2) [] Scenario.ready).2) = [[]].
Proof. split; reflexivity. Qed.

(** ** Witnesses for the translation and the selection of identifiers *)

(** StavDat has no mechanical column in the table and is mapped to
    STAV_DATUM by the attribute map. *)
Lemma column_name_two_stage_witness :
  log_ready Scenario.ready
  /\ column_name (Scenario.ctios 2) ["ID"; "NAZEV"] "StavDat" Scenario.ready
     = (Ok "STAV_DATUM", Scenario.ready).
Proof.
  assert (Hr : log_ready Scenario.ready) by (exists "/tmp"; split; reflexivity).
  split; [exact Hr|].
  destruct (column_name_two_stage (Scenario.ctios 2) ["ID"; "NAZEV"] "StavDat"
              Scenario.ready Hr) as (_ & H & _).
  apply (H ltac:(intros Hin; apply str_in_spec in Hin; discriminate)
           Scenario.attribute_map "STAV_DATUM"); reflexivity.
Defined.

(** An attribute that neither stage resolves raises. *)
Example column_name_unmappable :
  (column_name (Scenario.ctios 2) ["ID"; "NAZEV"] "jmeno" Scenario.ready).1
  = Raise (CtiOsError msg_unmappable).
Proof. reflexivity. Qed.

(** The six rows of the example table hold five distinct identifiers. *)
Lemma set_ids_from_db_spec_witness :
  db_openable Scenario.ready = true
  /\ opsub Scenario.ready = Some Scenario.opsub0
  /\ query_rows (Scenario.ctios 2) None Scenario.opsub0
     = Some (map Scenario.id ["101"; "102"; "103"; "104"; "105"; "101"])
  /\ exists ids s',
       set_ids_from_db (Scenario.ctios 2) None Scenario.ready = (Ok ids, s')
       /\ NoDup ids /\ length ids = 5%nat.
Proof.
  repeat (split; [reflexivity|]).
  destruct (set_ids_from_db_spec (Scenario.ctios 2) None Scenario.ready Scenario.opsub0
              (map Scenario.id ["101"; "102"; "103"; "104"; "105"; "101"])
              eq_refl eq_refl eq_refl) as (Hnd & _ & _ & s' & _ & _ & Hok).
  eexists _, s'. split; [apply Hok; vm_compute; lia|].
  split; [exact Hnd | reflexivity].
Defined.

(** A table with a single identifier is rejected. *)
Example set_ids_from_db_single :
  (set_ids_from_db (Scenario.ctios 2) None
     (set_opsub (Some (mkTable ["ID"] [[Some "101"]; [Some "101"]])) Scenario.ready)).1
  = Raise (CtiOsError "Query has an empty result!").
Proof. reflexivity. Qed.

(** ** C10: [set_log_file] comes first *)

(** Nothing but [set_log_file] assigns [log_dir]. *)
Definition same_log_dir (s s' : State) : Prop := log_dir s' = log_dir s.

Lemma same_log_dir_set_ids self sql : pres same_log_dir (set_ids_from_db self sql).
Proof.
  apply pres_set_ids_from_db; try (intros; reflexivity).
  - unfold same_log_dir. congruence.
  - intros s. unfold same_log_dir, commit. destruct (txn s); reflexivity.
Qed.

(** C10. On an instance without [log_dir], that is one on which
    [set_log_file] was never called, [query_requests] raises
    AttributeError at once: the state, and with it the trace and the
    store, is unchanged. Selecting identifiers does not assign [log_dir]
    either. A call of [set_log_file] that returns has set the four
    counters to zero, and it returns whenever the log file can be opened. *)
Theorem query_requests_needs_set_log_file (self : CtiOs) (ids : list Row) (dir : string)
    (s : State) :
  log_dir s = None ->
  query_requests self ids s = (Raise (AttributeError "log_dir"), s)
  /\ (forall sql r s', set_ids_from_db self sql s = (r, s') -> log_dir s' = None)
  /\ (log_file_ok self dir = true -> exists s2, set_log_file self dir s = (Ok tt, s2))
  /\ (forall s1 s2, set_log_file self dir s1 = (Ok tt, s2) ->
        log_dir s2 = Some dir /\ logging s2 = true
        /\ state_vector s2 = Some (mkSV 0 0 0 0)).
Proof.
  intros Hnone. repeat split.
  - unfold query_requests, log_if_dir, get_log_dir. unfold_monad. now rewrite Hnone.
  - intros sql r s' H. apply same_log_dir_set_ids in H. unfold same_log_dir in H. congruence.
  - intros Hok. unfold set_log_file. unfold_monad. rewrite Hok. eauto.
  - unfold set_log_file in H. unfold_monad.
    destruct (log_file_ok self dir); inversion H; reflexivity.
  - unfold set_log_file in H. unfold_monad.
    destruct (log_file_ok self dir); inversion H; reflexivity.
  - unfold set_log_file in H. unfold_monad.
    destruct (log_file_ok self dir); inversion H; reflexivity.
Qed.

Lemma query_requests_needs_set_log_file_witness :
  log_dir Scenario.fresh = None
  /\ query_requests (Scenario.ctios 2) [Scenario.id "101"; Scenario.id "102"] Scenario.fresh
     = (Raise (AttributeError "log_dir"), Scenario.fresh)
  /\ exists s2, set_log_file (Scenario.ctios 2) "/tmp" Scenario.fresh = (Ok tt, s2).
Proof.
  split; [reflexivity|].
  destruct (query_requests_needs_set_log_file (Scenario.ctios 2)
              [Scenario.id "101"; Scenario.id "102"] "/tmp" Scenario.fresh eq_refl)
    as (H1 & _ & H3 & _).
  split; [exact H1 | exact (H3 eq_refl)].
Defined.

(** ** C9: the column OS_ID is added once *)

Definition is_alter (e : Event) : bool :=
  match e with EvSql AlterAddOsId _ => true | _ => false end.

Definition is_failed_alter (e : Event) : bool :=
  match e with EvSql AlterAddOsId false => true | _ => false end.

(** How often the ALTER statement was sent, and how often it was rejected. *)
Definition alters (tr : list Event) : nat := length (List.filter is_alter tr).
Definition failed_alters (tr : list Event) : nat := length (List.filter is_failed_alter tr).

(** ['OS_ID' in col_names], the test of line 312: the names are compared
    as Python strings. *)
Definition has_os_id (db : option Table) : bool :=
  match db with
  | Some t => str_in "OS_ID" (columns t)
  | None => false
  end.

(** No column of the table is OS_ID in another spelling ([os_id],
    [Os_Id]): a column the engine takes for OS_ID is written OS_ID. *)
Definition os_id_exact (db : option Table) : bool :=
  match db with
  | Some t => forallb (fun c => implb (sql_name_eqb c "OS_ID") (String.eqb c "OS_ID"))
                      (columns t)
  | None => true
  end.


(** The ALTER statements sent so far, plus the one still to come. *)
Definition potential (s : State) : nat :=
  (alters (trace s) + (if has_os_id (opsub s) then 0 else 1))%nat.

Definition measures (s s' : State) : Prop :=
  (potential s' <= potential s)%nat
  /\ (alters (trace s) <= alters (trace s'))%nat
  /\ (has_os_id (opsub s) = true -> has_os_id (opsub s') = true)
  /\ failed_alters (trace s') = failed_alters (trace s).


Definition settled (s s' : State) : Prop :=
  txn s = None ->
  txn s' = None
  /\ (os_id_exact (opsub s) = true -> os_id_exact (opsub s') = true /\ measures s s').

(** The pipeline run any number of times, each run on the state the
    previous one left, whether it returned or raised. *)
Fixpoint run_many (runs : list (CtiOs * list Row)) (s : State) : State :=
  match runs with
  | [] => s
  | (self, ids) :: runs' => run_many runs' (query_requests self ids s).2
  end.

Lemma measures_refl s : measures s s.
Proof. unfold measures. auto. Qed.

Lemma measures_trans s1 s2 s3 : measures s1 s2 -> measures s2 s3 -> measures s1 s3.
Proof.
  unfold measures. intros (A1 & A2 & A3 & A4) (B1 & B2 & B3 & B4).
  repeat split; [lia | lia | auto | congruence].
Qed.



Lemma settled_refl s : settled s s.
Proof. intros H. split; [exact H|]. intros E. split; [exact E | apply measures_refl]. Qed.

Lemma settled_trans s1 s2 s3 : settled s1 s2 -> settled s2 s3 -> settled s1 s3.
Proof.
  intros H12 H23 H1. destruct (H12 H1) as [H2 M12]. destruct (H23 H2) as [H3 M23].
  split; [exact H3|]. intros E1. destruct (M12 E1) as [E2 A]. destruct (M23 E2) as [E3 B].
  split; [exact E3 | eapply measures_trans; eauto].
Qed.

Lemma alters_snoc tr e :
  alters (tr ++ [e]) = (alters tr + (if is_alter e then 1 else 0))%nat.
Proof.
  unfold alters. rewrite List.filter_app, length_app. simpl.
  destruct (is_alter e); reflexivity.
Qed.

Lemma failed_alters_snoc tr e :
  failed_alters (tr ++ [e]) = (failed_alters tr + (if is_failed_alter e then 1 else 0))%nat.
Proof.
  unfold failed_alters. rewrite List.filter_app, length_app. simpl.
  destruct (is_failed_alter e); reflexivity.
Qed.

Lemma is_failed_alter_alter e : is_alter e = false -> is_failed_alter e = false.
Proof. destruct e as [| |[] []| |]; simpl; congruence. Qed.

(** The measures read the trace and the committed table only. *)
Lemma measures_same s s' :
  trace s' = trace s -> opsub s' = opsub s -> measures s s'.
Proof.
  intros Ht Ho. unfold measures, potential. rewrite Ht, Ho.
  repeat split; auto.
Qed.

(** An event other than the ALTER statement changes no measure. *)
Lemma measures_event e s : is_alter e = false -> measures s (add_event e s).
Proof.
  intros He. unfold measures, potential. simpl.
  rewrite alters_snoc, failed_alters_snoc, He, (is_failed_alter_alter e He).
  repeat split; auto; lia.
Qed.


Lemma settled_event e s : is_alter e = false -> settled s (add_event e s).
Proof.
  intros He H. split; [exact H|]. intros E. split; [exact E | now apply measures_event].
Qed.

Lemma table_update_columns col v p t t' :
  table_update col v p t = Some t' -> columns t' = columns t.
Proof.
  unfold table_update. intros H.
  destruct (col_index col (columns t)); [|discriminate].
  destruct (col_index "ID" (columns t)); inversion H; reflexivity.
Qed.


(** When the spelling is exact, the test of line 312 and the engine agree
    on the absence of the column. *)
Lemma col_index_absent cols :
  forallb (fun c => implb (sql_name_eqb c "OS_ID") (String.eqb c "OS_ID")) cols = true ->
  str_in "OS_ID" cols = false ->
  col_index "OS_ID" cols = None.
Proof.
  unfold str_in. induction cols as [|d cols IH]; [reflexivity|].
  cbn [forallb existsb col_index].
  intros He Hs. apply andb_prop in He as [Hd He]. apply orb_false_elim in Hs as [Hn Hs].
  rewrite String.eqb_sym in Hn. rewrite Hn in Hd.
  destruct (sql_name_eqb d "OS_ID"); [discriminate Hd|].
  now rewrite (IH He Hs).
Qed.

Lemma str_in_snoc c cols : str_in c (cols ++ [c]) = true.
Proof.
  unfold str_in. rewrite existsb_app. simpl. rewrite String.eqb_refl.
  now rewrite orb_true_r.
Qed.

Lemma os_id_exact_snoc t :
  os_id_exact (Some t) = true ->
  os_id_exact (Some (mkTable (columns t ++ ["OS_ID"])
                             (map (fun r => r ++ [None]) (rows t)))) = true.
Proof.
  unfold os_id_exact. simpl. intros H. rewrite forallb_app, H. reflexivity.
Qed.


Lemma settled_execute st :
  st = Pragma \/ st = SelectAll -> pres settled (execute st).
Proof.
  intros Hst s r s' H. unfold execute in H.
  assert (Hev : forall ok, is_alter (EvSql st ok) = false)
    by (intros ok; destruct Hst; subst; reflexivity).
  destruct (engine st s) as [s1|] eqn:E; inversion H; subst; clear H.
  2:{ apply settled_event, Hev. }
  assert (s1 = s).
  { destruct Hst; subst; simpl in E; [congruence|].
    destruct (current_db s); congruence. }
  subst. apply settled_event, Hev.
Qed.

(** With no transaction open and OS_ID spelled exactly, the guarded ALTER
    is sent only when the column is absent, and then the engine accepts
    it. *)
Lemma settled_add_os_id_if_absent : pres settled add_os_id_if_absent.
Proof.
  intros s r s' H T.
  assert (Ht : txn s' = None).
  { unfold add_os_id_if_absent, description, execute in H. unfold_monad.
    unfold current_db in H. rewrite T in H.
    destruct (opsub s) as [t|]; [|inversion H; subst; exact T].
    destruct (negb (str_in "OS_ID" (columns t))); [|inversion H; subst; exact T].
    destruct (engine AlterAddOsId s) as [s1|] eqn:E; inversion H; subst; simpl; [|exact T].
    unfold engine, current_db in E. rewrite T in E.
    destruct (opsub s) as [t0|]; [|discriminate E].
    destruct (table_add_os_id t0); inversion E; subst. exact T. }
  split; [exact Ht|]. intros Ex.
  unfold add_os_id_if_absent, description, execute in H.
  unfold_monad. unfold engine, current_db in H. rewrite T in H.
  destruct (opsub s) as [t|] eqn:O.
  2:{ inversion H; subst. rewrite O. split; [reflexivity | apply measures_refl]. }
  destruct (str_in "OS_ID" (columns t)) eqn:C; simpl in H.
  { inversion H; subst. rewrite O. split; [exact Ex | apply measures_refl]. }
  rewrite T, O in H. unfold table_add_os_id in H.
  rewrite (col_index_absent _ Ex C) in H.
  inversion H; subst. simpl. split; [now apply os_id_exact_snoc|].
  unfold measures, potential. simpl. rewrite alters_snoc, failed_alters_snoc, O. simpl.
  rewrite C, str_in_snoc. repeat split; auto; lia.
Qed.






Lemma settled_set_conn : pres settled set_conn.
Proof.
  apply pres_modify. intros s T. split; [exact T|].
  intros E. split; [exact E | now apply measures_same].
Qed.

(** Between opening the connection and the first transaction nothing is
    pending, so the presence check reads the committed columns. *)
Lemma settled_evolve :
  pres settled (set_conn;; execute Pragma;; execute SelectAll;; add_os_id_if_absent).
Proof.
  apply (pres_bind _ settled_trans); [apply settled_set_conn | intros _].
  apply (pres_bind _ settled_trans); [apply settled_execute; auto | intros _].
  apply (pres_bind _ settled_trans); [apply settled_execute; auto | intros _].
  apply settled_add_os_id_if_absent.
Qed.






(** In those two runs the column is absent at the start, is added by the
    first record that is stored, and is found by every later one. *)
Example os_id_added_once_in_two_runs :
  let runs := [(Scenario.ctios 2,
                [Scenario.id "101"; Scenario.id "102"; Scenario.id "103"]);
               (Scenario.ctios 1,
                [Scenario.id "103"; Scenario.id "104"; Scenario.id "101"])] in
  has_os_id (opsub Scenario.ready) = false
  /\ alters (trace (run_many runs Scenario.ready)) = 1%nat
  /\ failed_alters (trace (run_many runs Scenario.ready)) = 0%nat
  /\ has_os_id (opsub (run_many runs Scenario.ready)) = true.
Proof. vm_compute. repeat split. Qed.



(** ** C3: the transaction of one record *)

(** The updates of one record applied in order to a table; [None] when the
    engine rejects one of them. *)
Fixpoint apply_updates (us : list (string * cell)) (p : cell) (t : Table) : option Table :=
  match us with
  | [] => Some t
  | (c, v) :: us' =>
      match table_update c v p t with
      | Some t' => apply_updates us' p t'
      | None => None
      end
  end.

(** What the transaction of the record at hand commits: every attribute
    and then OS_ID, on the rows of [posident]; [None] when it cannot. *)
Definition committed (attrs : list (string * cell)) (s : State) : option Table :=
  match posident (locals s), osid (locals s), opsub s with
  | Some p, Some o, Some t => apply_updates (attrs ++ [("OS_ID", o)]) p t
  | _, _, _ => None
  end.

(** The working copy after the loop over the attributes, read as the loop
    reads it: [posident] is looked up at each attribute. *)
Fixpoint loop_result (attrs : list (string * cell)) (p : option cell) (w : option Table)
  : option (option Table) :=
  match attrs with
  | [] => Some w
  | (c, v) :: rest =>
      match p, w with
      | Some p', Some t =>
          match table_update c v p' t with
          | Some t' => loop_result rest p (Some t')
          | None => None
          end
      | _, _ => None
      end
  end.

Lemma execute_update_inv c v p s r s' :
  execute (Update c v p) s = (r, s') ->
  opsub s' = opsub s /\ locals s' = locals s
  /\ match current_db s with
     | Some t =>
         match table_update c v p t with
         | Some t' => r = Ok tt /\ txn s' = Some (Some t')
         | None => r = Raise (SqliteError "rejected") /\ txn s' = txn s
         end
     | None => r = Raise (SqliteError "rejected") /\ txn s' = txn s
     end.
Proof.
  unfold execute. simpl. destruct (current_db s) as [t|].
  - destruct (table_update c v p t) as [t'|]; intros H; inversion H; subst; simpl; eauto.
  - intros H; inversion H; subst; simpl; eauto.
Qed.

Lemma get_posident_inv s r s' :
  get_posident s = (r, s') ->
  s' = s /\ match posident (locals s) with
            | Some p => r = Ok p
            | None => r = Raise (UnboundLocalError "posident")
            end.
Proof.
  unfold get_posident, get. unfold_monad.
  destruct (posident (locals s)); intros H; inversion H; auto.
Qed.

Lemma get_osid_inv s r s' :
  get_osid s = (r, s') ->
  s' = s /\ match osid (locals s) with
            | Some o => r = Ok o
            | None => r = Raise (UnboundLocalError "osid")
            end.
Proof.
  unfold get_osid, get. unfold_monad.
  destruct (osid (locals s)); intros H; inversion H; auto.
Qed.

(** The loop over the attributes writes to the working copy only; when
    [posident] is bound, what ends it early is a rejected statement. *)
Lemma update_loop_inv attrs : forall s r s' w,
  txn s = Some w ->
  for_each attrs
    (fun '(dat_name, dat_value) _ =>
       p ← get_posident; execute (Update dat_name dat_value p)) tt s = (r, s') ->
  opsub s' = opsub s /\ locals s' = locals s
  /\ match loop_result attrs (posident (locals s)) w with
     | Some w' => r = Ok tt /\ txn s' = Some w'
     | None => (exists e, r = Raise e
                          /\ (posident (locals s) <> None -> is_sqlite_error e = true))
               /\ exists w', txn s' = Some w'
     end.
Proof.
  induction attrs as [|[c v] attrs IH]; intros s r s' w T H; simpl in H.
  - inversion H; subst. simpl. auto.
  - apply bind_inv in H as [(a & s1 & H1 & H2) | (e & H1 & ->)].
    + apply bind_inv in H1 as [(p & s0 & Hp & Hu) | (e & Hp & Hr)]; [|discriminate Hr].
      apply get_posident_inv in Hp as [-> Hp].
      destruct (posident (locals s)) as [p'|] eqn:P; inversion Hp; subst; clear Hp.
      apply execute_update_inv in Hu as (Ho & Hl & Hu).
      unfold current_db in Hu. rewrite T in Hu. simpl.
      destruct w as [t|]; [|destruct Hu as [He _]; discriminate He].
      destruct (table_update c v p' t) as [t'|]; [|destruct Hu as [He _]; discriminate He].
      destruct Hu as [_ T1]. destruct a.
      destruct (IH _ _ _ _ T1 H2) as (Ho2 & Hl2 & Hr2).
      rewrite Hl, P in Hr2. repeat split; [congruence | congruence | exact Hr2].
    + apply bind_inv in H1 as [(p & s0 & Hp & Hu) | (e' & Hp & Hr)].
      * apply get_posident_inv in Hp as [-> Hp].
        destruct (posident (locals s)) as [p'|] eqn:P; inversion Hp; subst; clear Hp.
        apply execute_update_inv in Hu as (Ho & Hl & Hu).
        unfold current_db in Hu. rewrite T in Hu. simpl.
        assert (Hs : @Raise unit e = Raise (SqliteError "rejected") -> txn s' = Some w ->
                     (exists e0, @Raise unit e = Raise e0
                                 /\ (Some p' <> None -> is_sqlite_error e0 = true))
                     /\ exists w', txn s' = Some w').
        { intros He Hx. inversion He; subst. split; [eexists; split; eauto | eauto]. }
        destruct w as [t|].
        -- destruct (table_update c v p' t) as [t'|].
           ++ destruct Hu as [Hu _]. discriminate Hu.
           ++ destruct Hu as [He Hu]. split; [exact Ho | split; [exact Hl | apply Hs; congruence]].
        -- destruct Hu as [He Hu]. split; [exact Ho | split; [exact Hl | apply Hs; congruence]].
      * apply get_posident_inv in Hp as [-> Hp].
        destruct (posident (locals s)) as [p'|] eqn:P; inversion Hp; subst; clear Hp.
        simpl. split; [reflexivity | split; [reflexivity|]].
        split; [|eauto]. eexists. split; [reflexivity | congruence].
Qed.

Lemma apply_updates_app us vs p t :
  apply_updates (us ++ vs) p t
  = match apply_updates us p t with
    | Some t' => apply_updates vs p t'
    | None => None
    end.
Proof.
  revert t. induction us as [|[c v] us IH]; intros t; simpl; [reflexivity|].
  destruct (table_update c v p t); [apply IH | reflexivity].
Qed.

Lemma loop_result_apply attrs p : forall t,
  loop_result attrs (Some p) (Some t)
  = match apply_updates attrs p t with
    | Some t' => Some (Some t')
    | None => None
    end.
Proof.
  induction attrs as [|[c v] attrs IH]; intros t; simpl; [reflexivity|].
  destruct (table_update c v p t); [apply IH | reflexivity].
Qed.

(** The logging after the commit does not touch the database. *)
Lemma after_commit_inv s r s' :
  (d ← get_log_dir;
   if truthy d then
     p ← get_posident;
     log INFO "Radky v databazi u POSIdentu {} aktualizovany" [format_cell p]
   else ret tt) s = (r, s') ->
  opsub s' = opsub s /\ txn s' = txn s.
Proof.
  unfold get_log_dir, get_posident, log, emit, modify, get. unfold_monad.
  destruct (log_dir s) as [d|]; [|intros H; inversion H; subst; auto].
  destruct (truthy d); [|intros H; inversion H; subst; auto].
  destruct (posident (locals s)); [|intros H; inversion H; subst; auto].
  destruct (logging s); intros H; inversion H; subst; auto.
Qed.

(** The body of the [try]: it ends with the updates committed, or with the
    committed table as it was. *)
Lemma transaction_inv attrs s r s' :
  txn s = None ->
  transaction attrs s = (r, s') ->
  opsub s' = match committed attrs s with
             | Some t' => Some t'
             | None => opsub s
             end.
Proof.
  intros T H. unfold transaction in H.
  apply bind_inv in H as [([] & s1 & H1 & H) | (e & H1 & _)].
  2:{ unfold execute in H1. simpl in H1. rewrite T in H1. discriminate H1. }
  unfold execute in H1. simpl in H1. rewrite T in H1. inversion H1; subst; clear H1.
  assert (Hc : forall s2 : State,
    opsub s2 = opsub s -> match committed attrs s with
                          | Some t' => False
                          | None => True
                          end ->
    opsub s2 = match committed attrs s with Some t' => Some t' | None => opsub s end).
  { intros s2 Ho Hn. destruct (committed attrs s); [contradiction | exact Ho]. }
  unfold committed in *.
  set (s1 := add_event _ _) in H.
  assert (T1 : txn s1 = Some (opsub s)) by reflexivity.
  assert (L1 : locals s1 = locals s) by reflexivity.
  assert (O1 : opsub s1 = opsub s) by reflexivity.
  clearbody s1.
  apply bind_inv in H as [([] & s2 & H2 & H) | (e & H2 & _)];
    apply (update_loop_inv _ _ _ _ _ T1) in H2 as (O2 & L2 & R2); rewrite L1 in R2.
  2:{ apply Hc; [congruence|].
      destruct (posident (locals s)) as [p|]; [|exact I].
      destruct (osid (locals s)) as [o|]; [|exact I].
      destruct (opsub s) as [t|]; [|exact I].
      rewrite apply_updates_app. rewrite loop_result_apply in R2.
      destruct (apply_updates attrs p t); [|exact I].
      destruct R2 as [R2 _]. discriminate R2. }
  destruct (loop_result attrs (posident (locals s)) (opsub s)) as [w|] eqn:LR;
    [|destruct R2 as [[e [He _]] _]; discriminate He].
  destruct R2 as [_ T2].
  apply bind_inv in H as [(o & s3 & H3 & H) | (e & H3 & _)];
    unfold get_osid in H3; unfold_monad; unfold get in H3; rewrite L2, L1 in H3;
    destruct (osid (locals s)) as [o'|] eqn:Os; inversion H3; subst; clear H3.
  2:{ apply Hc; [congruence|]. destruct (posident (locals s)); exact I. }
  apply bind_inv in H as [(p & s4 & H4 & H) | (e & H4 & _)];
    unfold get_posident in H4; unfold_monad; unfold get in H4; rewrite L2, L1 in H4;
    destruct (posident (locals s)) as [p'|] eqn:Ps; inversion H4; subst; clear H4.
  2:{ apply Hc; [congruence | exact I]. }
  destruct (opsub s) as [t|] eqn:Op.
  2:{ apply bind_inv in H as [([] & s5 & H5 & H) | (e & H5 & _)];
        apply execute_update_inv in H5 as (O5 & L5 & R5);
        unfold current_db in R5; rewrite T2 in R5.
      - destruct attrs as [|[c v] attrs]; simpl in LR; [|discriminate LR].
        inversion LR; subst. destruct R5 as [He _]. discriminate He.
      - congruence. }
  rewrite loop_result_apply in LR. rewrite apply_updates_app.
  destruct (apply_updates attrs p t) as [t1|]; [|discriminate LR].
  inversion LR; subst; clear LR. simpl.
  apply bind_inv in H as [([] & s5 & H5 & H) | (e & H5 & _)];
    apply execute_update_inv in H5 as (O5 & L5 & R5);
    unfold current_db in R5; rewrite T2 in R5;
    destruct (table_update "OS_ID" o p t1) as [t2|];
    try (destruct R5 as [R5 _]; discriminate R5).
  2:{ congruence. }
  destruct R5 as [_ T5].
  apply bind_inv in H as [([] & s6 & H6 & H) | (e & H6 & _)];
    unfold execute in H6; simpl in H6; rewrite T5 in H6; inversion H6; subst; clear H6.
  apply after_commit_inv in H as [H _]. exact H.
Qed.

(** The [except] and [finally] clauses undo what is pending and write
    nothing. *)
Lemma update_opsub_inv attrs s r s' :
  update_opsub attrs s = (r, s') ->
  exists r1 s1, transaction attrs s = (r1, s1) /\ opsub s' = opsub s1 /\ txn s' = None.
Proof.
  unfold update_opsub, try_finally, try_except, conn_close, conn_Error, emit, modify, get,
    execute.
  unfold_monad. destruct (transaction attrs s) as [[a|e] s1] eqn:E; simpl.
  - intros H. inversion H; subst. eauto.
  - intros H. exists (Raise e), s1. split; [reflexivity|]. revert H.
    destruct (conn (locals s1)); [|intros H; inversion H; subst; auto].
    destruct (is_sqlite_error e); [|intros H; inversion H; subst; auto].
    simpl. destruct (txn s1); simpl; intros H; inversion H; subst; auto.
Qed.

(** C3 (as amended). The transaction spans one record, not one batch.  With
    no transaction pending, the updates of one record end in one of two
    ways, however the block is left: every update of the record (each
    attribute, then OS_ID, on the rows of its identifier) is in the
    committed table, or the committed table is what it was; nothing is
    pending afterwards.  What earlier records committed is part of the
    table at the start, and stays. *)
Theorem update_opsub_atomic attrs s r s' :
  txn s = None ->
  update_opsub attrs s = (r, s') ->
  txn s' = None
  /\ opsub s' = match committed attrs s with
                | Some t' => Some t'
                | None => opsub s
                end.
Proof.
  intros T H. apply update_opsub_inv in H as (r1 & s1 & H1 & Ho & Ht).
  split; [exact Ht|]. rewrite Ho. exact (transaction_inv _ _ _ _ T H1).
Qed.

(** The statements the engine rejected, in order. *)
Definition rejected (tr : list Event) : list Stmt :=
  omap (fun e => match e with EvSql st false => Some st | _ => None end) tr.

(** The record of 101 with its connection open, the column OS_ID added. *)
Definition at_record_101 : State :=
  set_opsub (Some (mkTable ["ID"; "NAZEV"; "OS_ID"]
                     [[Some "101"; None; None]; [Some "102"; None; None]]))
    (set_locals (mkLocals (Some (Some "101")) (Some (Some "9001")) true) Scenario.ready).

(** One attribute that has a column: both updates are committed. *)
Lemma update_opsub_atomic_witness :
  txn at_record_101 = None
  /\ (txn (update_opsub [("NAZEV", Some "Alfa")] at_record_101).2 = None
      /\ opsub (update_opsub [("NAZEV", Some "Alfa")] at_record_101).2
         = match committed [("NAZEV", Some "Alfa")] at_record_101 with
           | Some t' => Some t'
           | None => opsub at_record_101
           end).
Proof.
  split; [reflexivity|].
  apply (update_opsub_atomic [("NAZEV", Some "Alfa")] at_record_101
           (update_opsub [("NAZEV", Some "Alfa")] at_record_101).1);
    [reflexivity | apply surjective_pairing].
Defined.

Example update_opsub_all_committed :
  committed [("NAZEV", Some "Alfa")] at_record_101
  = Some (mkTable ["ID"; "NAZEV"; "OS_ID"]
            [[Some "101"; Some "Alfa"; Some "9001"]; [Some "102"; None; None]]).
Proof. reflexivity. Qed.

(** An attribute without a column after one with a column: nothing of the
    record is committed, not even the update that was accepted. *)
Example update_opsub_nothing_committed :
  let attrs := [("NAZEV", Some "Alfa"); ("PRIJMENI", Some "Delta")] in
  let run := update_opsub attrs at_record_101 in
  committed attrs at_record_101 = None
  /\ run.1 = Ok tt
  /\ opsub run.2 = opsub at_record_101
  /\ rejected (trace run.2) = [Update "PRIJMENI" (Some "Delta") (Some "101")].
Proof. vm_compute. repeat split. Qed.

(** C3 (as stated) fails: 101 and 104 are asked for in one batch, the update
    of 104 is rejected and rolled back, and the updates of 101, made in
    the same batch, are in the table afterwards. *)
Lemma batch_not_all_or_nothing :
  let run := query_requests (Scenario.ctios 2)
               [Scenario.id "101"; Scenario.id "104"] Scenario.ready in
  batches_of (trace run.2) = [[Scenario.id "101"; Scenario.id "104"]]
  /\ rejected (trace run.2) = [Update "PRIJMENI" (Some "Delta") (Some "104")]
  /\ opsub run.2
     = Some (mkTable ["ID"; "NAZEV"; "OS_ID"]
               [[Some "101"; Some "Alfa"; Some "9001"];
                [Some "102"; None; None]; [Some "103"; None; None];
                [Some "104"; None; None]; [Some "105"; None; None];
                [Some "101"; Some "Alfa"; Some "9001"]]).
Proof. vm_compute. repeat split. Qed.

(** ** C2: a write fault *)

(** When the engine rejects an update of the record, the body of the
    [try] raises the engine's error with the transaction still open. *)
Lemma transaction_fault attrs s p o r s1 :
  txn s = None ->
  posident (locals s) = Some p ->
  osid (locals s) = Some o ->
  committed attrs s = None ->
  transaction attrs s = (r, s1) ->
  (exists e, r = Raise e /\ is_sqlite_error e = true)
  /\ (exists w, txn s1 = Some w) /\ locals s1 = locals s /\ opsub s1 = opsub s.
Proof.
  intros T P Os C H. unfold committed in C. rewrite P, Os in C.
  unfold transaction in H.
  apply bind_inv in H as [([] & s0 & H0 & H) | (e & H0 & _)];
    unfold execute in H0; simpl in H0; rewrite T in H0; inversion H0; subst; clear H0.
  set (s0 := add_event _ _) in H.
  assert (T0 : txn s0 = Some (opsub s)) by reflexivity.
  assert (L0 : locals s0 = locals s) by reflexivity.
  assert (O0 : opsub s0 = opsub s) by reflexivity.
  clearbody s0.
  apply bind_inv in H as [([] & s2 & H2 & H) | (e & H2 & ->)];
    apply (update_loop_inv _ _ _ _ _ T0) in H2 as (O2 & L2 & R2); rewrite L0, P in R2.
  2:{ destruct (loop_result attrs (Some p) (opsub s)) as [w|].
      - destruct R2 as [R2 _]. discriminate R2.
      - destruct R2 as [(e' & He & Hs) Hw]. inversion He; subst.
        repeat split; [eexists; split; [reflexivity | apply Hs; discriminate]
                      | exact Hw | congruence | congruence]. }
  destruct (loop_result attrs (Some p) (opsub s)) as [w|] eqn:LR;
    [|destruct R2 as [[e [He _]] _]; discriminate He].
  destruct R2 as [_ T2].
  apply bind_inv in H as [(o' & s3 & H3 & H) | (e & H3 & _)];
    apply get_osid_inv in H3 as [-> H3]; rewrite L2, L0, Os in H3;
    inversion H3; subst o'; clear H3.
  apply bind_inv in H as [(p' & s4 & H4 & H) | (e & H4 & _)];
    apply get_posident_inv in H4 as [-> H4]; rewrite L2, L0, P in H4;
    inversion H4; subst p'; clear H4.
  assert (Hrej : match w with
                 | Some t1 => table_update "OS_ID" o p t1 = None
                 | None => True
                 end).
  { destruct (opsub s) as [t|].
    - rewrite loop_result_apply in LR. rewrite apply_updates_app in C.
      destruct (apply_updates attrs p t) as [t1|]; [|discriminate LR].
      inversion LR; subst. simpl in C.
      destruct (table_update "OS_ID" o p t1); [discriminate C | reflexivity].
    - destruct attrs as [|[c v] attrs]; simpl in LR; [|discriminate LR].
      inversion LR; subst. exact I. }
  apply bind_inv in H as [([] & s5 & H5 & H) | (e & H5 & ->)];
    apply execute_update_inv in H5 as (O5 & L5 & R5);
    unfold current_db in R5; rewrite T2 in R5.
  - destruct w as [t1|]; [rewrite Hrej in R5|]; destruct R5 as [R5 _]; discriminate R5.
  - assert (He : @Raise unit e = Raise (SqliteError "rejected") /\ txn s1 = Some w)
      by (destruct w as [t1|]; [rewrite Hrej in R5|]; exact R5).
    destruct He as [He Hw]. inversion He; subst.
    repeat split; [eexists; split; reflexivity | eauto | congruence | congruence].
Qed.

(** C2. The code does not do what the claim says.  A record whose
    identifiers are read and whose connection is open, and one of whose
    updates the engine rejects: the block returns normally, with the
    committed table as it was, so the loop over the records and the run
    go on. *)
Theorem write_fault_swallowed attrs s p o :
  txn s = None ->
  conn (locals s) = true ->
  posident (locals s) = Some p ->
  osid (locals s) = Some o ->
  committed attrs s = None ->
  exists s', update_opsub attrs s = (Ok tt, s')
             /\ opsub s' = opsub s /\ txn s' = None
             /\ locals s' = locals s.
Proof.
  intros T Cn P Os C.
  destruct (transaction attrs s) as [r s1] eqn:E.
  destruct (transaction_fault _ _ _ _ _ _ T P Os C E)
    as ((e & -> & He) & (w & Hw) & Hl & Ho).
  unfold update_opsub, try_finally, try_except, conn_close, conn_Error, emit, modify, get,
    execute.
  unfold_monad. rewrite E, Hl, Cn, He. simpl. rewrite Hw. simpl.
  eexists. split; [reflexivity|]. simpl. auto.
Qed.

(** The second attribute of the record has no column. *)
Lemma write_fault_swallowed_witness :
  txn at_record_101 = None
  /\ conn (locals at_record_101) = true
  /\ committed [("NAZEV", Some "Alfa"); ("PRIJMENI", Some "Delta")] at_record_101 = None
  /\ exists s',
       update_opsub [("NAZEV", Some "Alfa"); ("PRIJMENI", Some "Delta")] at_record_101
       = (Ok tt, s')
       /\ opsub s' = opsub at_record_101 /\ txn s' = None
       /\ locals s' = locals at_record_101.
Proof.
  split; [reflexivity|]. split; [reflexivity|]. split; [reflexivity|].
  apply (write_fault_swallowed _ at_record_101 (Some "101") (Some "9001")); reflexivity.
Defined.

(** A run of two batches of one identifier each.  The only update of the
    first batch is rejected; [failed!] is printed, the transaction is
    rolled back, and the next thing the run does is to ask the service for
    the second batch.  The run returns normally and the second batch is
    stored. *)
Example query_requests_continues_after_write_fault :
  let run := query_requests (Scenario.ctios 1)
               [Scenario.id "104"; Scenario.id "101"] Scenario.ready in
  run.1 = Ok tt
  /\ batches_of (trace run.2) = [[Scenario.id "104"]; [Scenario.id "101"]]
  /\ take 4 (drop 7 (trace run.2))
     = [EvSql (Update "PRIJMENI" (Some "Delta") (Some "104")) false;
        EvPrint "failed!";
        EvSql RollbackTransaction true;
        EvCall [Scenario.id "101"]]
  /\ opsub run.2
     = Some (mkTable ["ID"; "NAZEV"; "OS_ID"]
               [[Some "101"; Some "Alfa"; Some "9001"];
                [Some "102"; None; None]; [Some "103"; None; None];
                [Some "104"; None; None]; [Some "105"; None; None];
                [Some "101"; Some "Alfa"; Some "9001"]]).
Proof. vm_compute. repeat split. Qed.

(** ** C4: an error marker that is none of the three *)

(** The marker of a record is one of the three literals the code tests. *)
Definition known_marker (chyba : Element) : bool :=
  text_is chyba "NEPLATNY_IDENTIFIKATOR"
  || text_is chyba "EXPIROVANY_IDENTIFIKATOR"
  || text_is chyba "OPRAVNENY_SUBJEKT_NEEXISTUJE".

(** C4. The code does not do what the claim says.  A record with an error
    marker that is none of the three literals passes every test of the
    chain: classification raises nothing and counts nothing, binds
    [posident], and does not go on to the next record, so the record is
    handled from there like one without a marker. *)
Theorem classify_unknown_marker (os chyba pe : Element) (s : State) :
  find_child os tag_chybaPOSIdent = Some chyba ->
  find_child os tag_pOSIdent = Some pe ->
  known_marker chyba = false ->
  classify os s
  = (Ok false,
     set_locals (mkLocals (Some (text pe)) (osid (locals s)) (conn (locals s))) s).
Proof.
  intros Hc Hp Hk. unfold known_marker in Hk.
  apply orb_false_elim in Hk as [Hk H3]. apply orb_false_elim in Hk as [H1 H2].
  unfold classify, find_text, set_posident, modify. unfold_monad.
  rewrite Hc, Hp. simpl. rewrite H1, H2, H3. reflexivity.
Qed.

Lemma classify_unknown_marker_witness :
  let os := Scenario.os_err_detail "105" "JINA_CHYBA" "9005" [("nazev", "Epsilon")] in
  find_child os tag_chybaPOSIdent = Some (Scenario.leaf "chybaPOSIdent" "JINA_CHYBA")
  /\ find_child os tag_pOSIdent = Some (Scenario.leaf "pOSIdent" "105")
  /\ known_marker (Scenario.leaf "chybaPOSIdent" "JINA_CHYBA") = false
  /\ classify os Scenario.ready
     = (Ok false,
        set_locals (mkLocals (Some (Some "105")) None false) Scenario.ready).
Proof.
  cbv zeta. split; [reflexivity|]. split; [reflexivity|]. split; [reflexivity|].
  apply (classify_unknown_marker _ (Scenario.leaf "chybaPOSIdent" "JINA_CHYBA")
           (Scenario.leaf "pOSIdent" "105")); reflexivity.
Defined.

(** A run for that one identifier: it returns normally, no counter has
    moved, and the payload of the record is in the table. *)
Example query_requests_unknown_marker_stored :
  let run := query_requests (Scenario.ctios 1) [Scenario.id "105"] Scenario.ready in
  run.1 = Ok tt
  /\ state_vector run.2 = Some (mkSV 0 0 0 0)
  /\ opsub run.2
     = Some (mkTable ["ID"; "NAZEV"; "OS_ID"]
               [[Some "101"; None; None]; [Some "102"; None; None];
                [Some "103"; None; None]; [Some "104"; None; None];
                [Some "105"; Some "Epsilon"; Some "9005"];
                [Some "101"; None; None]]).
Proof. vm_compute. repeat split. Qed.

(** The same marker on a record without payload: what is raised is the
    [TypeError] of the loop over a missing [osDetail]. *)
Example process_os_unknown_marker_no_detail :
  (process_os (Scenario.ctios 1) (Scenario.os_err "105" "JINA_CHYBA") Scenario.ready).1
  = Raise TypeError.
Proof. reflexivity. Qed.

(** ** C5: what the counters count *)

(** The counter that the classification of one record moves. *)
Definition tally (os : Element) (v : StateVector) : StateVector :=
  match find_child os tag_chybaPOSIdent with
  | Some chyba =>
      if text_is chyba "NEPLATNY_IDENTIFIKATOR" then incr_neplatny v
      else if text_is chyba "EXPIROVANY_IDENTIFIKATOR" then incr_expirovany v
      else if text_is chyba "OPRAVNENY_SUBJEKT_NEEXISTUJE" then incr_neexistuje v
      else v
  | None => incr_uspesne v
  end.

Definition tally_all (records : list Element) (v : StateVector) : StateVector :=
  fold_left (fun v os => tally os v) records v.

(** The record has no marker, or one of the three the code tests. *)
Definition counted (os : Element) : bool :=
  match find_child os tag_chybaPOSIdent with
  | Some chyba => known_marker chyba
  | None => true
  end.

Definition total (v : StateVector) : Z :=
  uspesne_stazeno v + neplatny_identifikator v + expirovany_identifikator v
  + opravneny_subjekt_neexistuje v.

Definition same_counters (s s' : State) : Prop := state_vector s' = state_vector s.

Lemma same_counters_refl s : same_counters s s.
Proof. reflexivity. Qed.

Lemma same_counters_trans s1 s2 s3 :
  same_counters s1 s2 -> same_counters s2 s3 -> same_counters s1 s3.
Proof. unfold same_counters. congruence. Qed.

Lemma same_counters_execute st : pres same_counters (execute st).
Proof.
  intros s r s' H. unfold execute in H. unfold same_counters.
  destruct (engine st s) as [s1|] eqn:E; inversion H; subst; simpl; [|reflexivity].
  destruct st; simpl in E;
    repeat match type of E with
           | context [match ?x with _ => _ end] => destruct x
           end;
    inversion E; subst; reflexivity.
Qed.

Ltac same_counters_side :=
  first [ exact same_counters_refl
        | exact same_counters_trans
        | intros; apply same_counters_execute
        | intros; reflexivity ].

(** Storing a record moves no counter. *)
Lemma same_counters_persist self os : pres same_counters (persist self os).
Proof.
  apply pres_persist; try same_counters_side.
  apply pres_open_and_evolve; same_counters_side.
Qed.

Lemma same_counters_log_if_dir lvl msg args : pres same_counters (log_if_dir lvl msg args).
Proof. apply pres_log_if_dir; same_counters_side. Qed.

Lemma incr_state_vector_inv f s u s' :
  incr_state_vector f s = (Ok u, s') ->
  state_vector s' = option_map f (state_vector s).
Proof.
  unfold incr_state_vector, get_state_vector, modify, get. unfold_monad.
  destruct (state_vector s); intros H; inversion H; subst; reflexivity.
Qed.

(** A known marker moves its counter, no marker moves the counter of the
    successes, and any other marker moves none. *)
Lemma classify_counts os s c s' :
  classify os s = (Ok c, s') ->
  state_vector s' = option_map (tally os) (state_vector s).
Proof.
  assert (Hk : forall f lvl msg args s0 (c0 : bool) r,
    state_vector s0 = state_vector s ->
    (incr_state_vector f;; log_if_dir lvl msg args;; ret c0) s0 = (Ok r, s') ->
    state_vector s' = option_map f (state_vector s)).
  { intros f lvl msg args s0 c0 r Hs H.
    apply bind_inv in H as [([] & s1 & H1 & H) | (e & _ & He)]; [|discriminate He].
    apply incr_state_vector_inv in H1.
    apply bind_inv in H as [([] & s2 & H2 & H) | (e & _ & He)]; [|discriminate He].
    apply same_counters_log_if_dir in H2. inversion H; subst.
    rewrite H2, H1, Hs. reflexivity. }
  unfold classify, tally.
  destruct (find_child os tag_chybaPOSIdent) as [chyba|].
  - intros H.
    apply bind_inv in H as [(p & s1 & H1 & H) | (e & _ & He)]; [|discriminate He].
    assert (s1 = s) by (unfold find_text in H1; destruct (find_child os tag_pOSIdent);
                        inversion H1; reflexivity).
    subst s1.
    apply bind_inv in H as [([] & s2 & H2 & H) | (e & _ & He)]; [|discriminate He].
    assert (Hs : state_vector s2 = state_vector s) by (inversion H2; reflexivity).
    destruct (text_is chyba "NEPLATNY_IDENTIFIKATOR"); [eapply Hk; eauto|].
    destruct (text_is chyba "EXPIROVANY_IDENTIFIKATOR"); [eapply Hk; eauto|].
    destruct (text_is chyba "OPRAVNENY_SUBJEKT_NEEXISTUJE"); [eapply Hk; eauto|].
    inversion H; subst. rewrite Hs. destruct (state_vector s); reflexivity.
  - intros H.
    apply bind_inv in H as [([] & s1 & H1 & H) | (e & _ & He)]; [|discriminate He].
    apply incr_state_vector_inv in H1. inversion H; subst. exact H1.
Qed.

Lemma process_os_counts self os s u s' :
  process_os self os s = (Ok u, s') ->
  state_vector s' = option_map (tally os) (state_vector s).
Proof.
  unfold process_os. intros H.
  apply bind_inv in H as [(c & s1 & H1 & H) | (e & _ & He)]; [|discriminate He].
  apply classify_counts in H1. destruct c.
  - inversion H; subst. exact H1.
  - apply same_counters_persist in H. unfold same_counters in H. congruence.
Qed.

Lemma records_counts self records : forall s u s',
  for_each records (fun os _ => process_os self os) tt s = (Ok u, s') ->
  state_vector s' = option_map (tally_all records) (state_vector s).
Proof.
  induction records as [|os records IH]; intros s u s' H; simpl in H.
  - inversion H; subst. destruct (state_vector s'); reflexivity.
  - apply bind_inv in H as [([] & s1 & H1 & H) | (e & _ & He)]; [|discriminate He].
    apply process_os_counts in H1. apply IH in H. rewrite H, H1.
    destruct (state_vector s); reflexivity.
Qed.

Lemma total_tally os v : counted os = true -> total (tally os v) = total v + 1.
Proof.
  unfold counted, tally, known_marker, total.
  destruct (find_child os tag_chybaPOSIdent) as [chyba|]; [|simpl; lia].
  destruct (text_is chyba "NEPLATNY_IDENTIFIKATOR"); [simpl; lia|].
  destruct (text_is chyba "EXPIROVANY_IDENTIFIKATOR"); [simpl; lia|].
  destruct (text_is chyba "OPRAVNENY_SUBJEKT_NEEXISTUJE"); [simpl; lia | discriminate].
Qed.

Lemma total_tally_all records : forall v,
  forallb counted records = true ->
  total (tally_all records v) = total v + Z.of_nat (length records).
Proof.
  induction records as [|os records IH]; intros v H.
  - simpl. lia.
  - simpl in H. apply andb_prop in H as [H1 H2]. unfold tally_all. simpl.
    fold (tally_all records (tally os v)). rewrite (IH _ H2), (total_tally _ _ H1). lia.
Qed.

(** C5 (as amended). The counters count the records of the response, one
    counter per record, while the records are classified.  When
    [_save_attributes_to_db] returns, each record of the response document
    has moved the counter of its kind, whether or not its updates were
    stored afterwards; and when every record has no marker or one of the
    three known markers, the four counters together have grown by the
    number of records of the response. *)
Theorem save_attributes_counts_records self response_xml root s res s' v :
  fromstring self response_xml = Some root ->
  state_vector s = Some v ->
  _save_attributes_to_db self response_xml s = (Ok res, s') ->
  state_vector s' = Some (tally_all (findall_desc root tag_os) v)
  /\ (forallb counted (findall_desc root tag_os) = true ->
      total (tally_all (findall_desc root tag_os) v)
      = total v + Z.of_nat (length (findall_desc root tag_os))).
Proof.
  intros Hroot Hv H. split; [|apply total_tally_all].
  unfold _save_attributes_to_db in H. rewrite Hroot in H.
  apply bind_inv in H as [([] & s1 & H1 & H) | (e & _ & He)]; [|discriminate He].
  inversion H1; subst; clear H1.
  apply bind_inv in H as [(root' & s2 & H2 & H) | (e & _ & He)]; [|discriminate He].
  inversion H2; subst; clear H2.
  apply bind_inv in H as [([] & s3 & H3 & H) | (e & _ & He)]; [|discriminate He].
  apply records_counts in H3. simpl in H3. rewrite Hv in H3. simpl in H3.
  apply bind_inv in H as [(d & s4 & H4 & H) | (e & _ & He)]; [|discriminate He].
  assert (s4 = s3) by (unfold get_log_dir, get in H4; unfold_monad;
                       destruct (log_dir s3); inversion H4; reflexivity).
  subst s4. destruct (truthy d).
  - apply bind_inv in H as [(v' & s5 & H5 & H) | (e & _ & He)]; [|discriminate He].
    assert (s5 = s3) by (unfold get_state_vector, get in H5; unfold_monad;
                         destruct (state_vector s3); inversion H5; reflexivity).
    subst s5. inversion H; subst. exact H3.
  - inversion H; subst. exact H3.
Qed.

(** The response to the batch 101, 102, 103: two successes and one invalid
    identifier. *)
Lemma save_attributes_counts_records_witness :
  let records := [Scenario.os_ok "101" "9001" [("nazev", "Alfa")];
                  Scenario.os_err "102" "NEPLATNY_IDENTIFIKATOR";
                  Scenario.os_ok "103" "9003" [("nazev", "Gama")]] in
  let doc := Scenario.tagged "101" +:+ Scenario.tagged "102" +:+ Scenario.tagged "103" in
  let run := _save_attributes_to_db (Scenario.ctios 3) doc Scenario.ready in
  fromstring (Scenario.ctios 3) doc = Some (Scenario.response records)
  /\ run.1 = Ok (Some (mkSV 1 0 0 2))
  /\ state_vector run.2
     = Some (tally_all (findall_desc (Scenario.response records) tag_os) (mkSV 0 0 0 0))
  /\ (forallb counted (findall_desc (Scenario.response records) tag_os) = true ->
      total (tally_all (findall_desc (Scenario.response records) tag_os) (mkSV 0 0 0 0))
      = total (mkSV 0 0 0 0)
        + Z.of_nat (length (findall_desc (Scenario.response records) tag_os))).
Proof.
  cbv zeta. split; [vm_compute; reflexivity|]. split; [vm_compute; reflexivity|].
  apply (save_attributes_counts_records (Scenario.ctios 3)
           (Scenario.tagged "101" +:+ Scenario.tagged "102" +:+ Scenario.tagged "103")
           _ Scenario.ready (Some (mkSV 1 0 0 2)));
    vm_compute; reflexivity.
Defined.

(** A record whose update is rejected is counted as a success all the
    same. *)
Example rejected_record_is_counted :
  let run := _save_attributes_to_db (Scenario.ctios 2)
               (Scenario.tagged "101" +:+ Scenario.tagged "104") Scenario.ready in
  run.1 = Ok (Some (mkSV 0 0 0 2))
  /\ rejected (trace run.2) = [Update "PRIJMENI" (Some "Delta") (Some "104")].
Proof. vm_compute. repeat split. Qed.

(** C5 (as stated) fails: two identifiers are asked for in one batch and
    the service answers with the record of one; one counter moves, once. *)
Lemma counters_count_records_not_identifiers :
  let run := query_requests (Scenario.ctios 2)
               [Scenario.id "101"; Scenario.id "103"] Scenario.ready in
  run.1 = Ok tt
  /\ batches_of (trace run.2) = [[Scenario.id "101"; Scenario.id "103"]]
  /\ state_vector run.2 = Some (mkSV 0 0 0 1)
  /\ total (mkSV 0 0 0 1) <> 2.
Proof. vm_compute. repeat split. discriminate. Qed.

(** * Further properties of the methods *)

(** ** [query_requests] with a batch size that is not positive *)

Definition is_log (e : Event) : bool :=
  match e with EvLog _ _ _ => true | _ => false end.

(** What a run does besides logging: the batches it enters, the requests
    it posts, the statements it sends, the lines it prints. *)
Definition effects (tr : list Event) : list Event :=
  List.filter (fun e => negb (is_log e)) tr.

(** Nothing but log lines lies between two states. *)
Definition quiet (s s' : State) : Prop :=
  opsub s' = opsub s /\ txn s' = txn s /\ state_vector s' = state_vector s
  /\ effects (trace s') = effects (trace s).

Lemma quiet_refl s : quiet s s.
Proof. unfold quiet. auto. Qed.

Lemma quiet_trans s1 s2 s3 : quiet s1 s2 -> quiet s2 s3 -> quiet s1 s3.
Proof.
  unfold quiet. intros (A1 & A2 & A3 & A4) (B1 & B2 & B3 & B4).
  repeat split; congruence.
Qed.

Lemma quiet_log lvl msg args s : quiet s (add_event (EvLog lvl msg args) s).
Proof.
  unfold quiet, effects. simpl. rewrite List.filter_app. simpl.
  rewrite app_nil_r. auto.
Qed.

Lemma quiet_log_if_dir lvl msg args : pres quiet (log_if_dir lvl msg args).
Proof. apply pres_log_if_dir; [exact quiet_refl | exact quiet_trans | exact quiet_log]. Qed.

Lemma quiet_log_state_vector : pres quiet log_state_vector.
Proof.
  apply pres_log_state_vector; [exact quiet_refl | exact quiet_trans | exact quiet_log].
Qed.

Lemma effects_batches tr tr' : effects tr' = effects tr -> batches_of tr' = batches_of tr.
Proof.
  assert (H : forall l, batches_of (effects l) = batches_of l).
  { induction l as [|e l IH]; [reflexivity|].
    unfold effects, batches_of in *. destruct e; simpl; first [exact IH | f_equal; exact IH]. }
  intros E. rewrite <- (H tr'), <- (H tr), E. reflexivity.
Qed.

Lemma get_log_dir_ok s d : log_dir s = Some d -> get_log_dir s = (Ok d, s).
Proof. intros H. unfold get_log_dir. unfold_monad. now rewrite H. Qed.

Lemma get_state_vector_ok s v : state_vector s = Some v -> get_state_vector s = (Ok v, s).
Proof. intros H. unfold get_state_vector. unfold_monad. now rewrite H. Qed.

Lemma log_ok lvl msg args s :
  logging s = true -> log lvl msg args s = (Ok tt, add_event (EvLog lvl msg args) s).
Proof. intros H. unfold log. unfold_monad. now rewrite H. Qed.

Lemma log_state_vector_ready s v :
  log_ready s -> state_vector s = Some v ->
  exists s', log_state_vector s = (Ok tt, s').
Proof.
  intros (d & Hd & Hl) Hv. unfold log_state_vector. unfold_monad.
  rewrite (get_log_dir_ok _ _ Hd). destruct (truthy d); [|eauto].
  repeat (first [ rewrite (get_state_vector_ok _ v) by exact Hv
                | rewrite log_ok by exact Hl ]; cbv beta iota).
  eauto.
Qed.

(** With a negative batch size nothing is a full batch and the rest is
    empty. *)
Lemma negative_max_num_no_batch (max_num : Z) (ids : list Row) :
  max_num < 0 ->
  (Z.of_nat (length ids) <=? max_num) = false
  /\ py_range (Z.of_nat (length ids) / max_num) = []
  /\ py_slice ids (Z.of_nat (length ids) - Z.of_nat (length ids) mod max_num)
              (Z.of_nat (length ids)) = [].
Proof.
  intros HM. set (n := Z.of_nat (length ids)). assert (Hn : 0 <= n) by (unfold n; lia).
  split; [apply Z.leb_gt; lia|]. split.
  - unfold py_range. assert (n / max_num <= 0).
    { pose proof (Z.mod_neg_bound n max_num HM) as Hb.
      pose proof (Z.div_mod n max_num ltac:(lia)) as Hd. nia. }
    replace (Z.to_nat (n / max_num)) with 0%nat by lia. reflexivity.
  - pose proof (Z.mod_neg_bound n max_num HM) as Hb.
    unfold py_slice. fold n.
    destruct (n - n mod max_num <? 0) eqn:E1; [apply Z.ltb_lt in E1; lia|].
    destruct (n <? 0) eqn:E2; [apply Z.ltb_lt in E2; lia|].
    replace (Z.to_nat (Z.min n n - Z.min (n - n mod max_num) n)) with 0%nat by lia.
    apply take_0.
Qed.

(** One log line of a run on an instance that is set up for logging. *)
Tactic Notation "log_line" hyp(H) constr(Hready) ident(R1) :=
  match type of H with
  | log_if_dir ?l ?m ?a ?s = (_, ?s2) =>
      let L := fresh "L" in
      let sx := fresh "sx" in
      destruct (log_if_dir_ready l m a s Hready) as (sx & L & R1);
      rewrite L in H;
      first [ discriminate H
            | assert (sx = s2) by congruence; subst sx; clear L H ]
  end.

(** A negative batch size: the run asks the service for nothing and stores
    nothing, whatever the identifiers, and it returns normally when the
    instance is set up for logging. *)
Theorem query_requests_negative_max_num self ids s r s' :
  _max_num self < 0 ->
  query_requests self ids s = (r, s') ->
  quiet s s'
  /\ batches_of (trace s') = batches_of (trace s)
  /\ (log_ready s -> state_vector s <> None -> r = Ok tt).
Proof.
  intros HM H.
  destruct (negative_max_num_no_batch _ ids HM) as (E1 & E2 & E3).
  unfold query_requests in H. cbv zeta in H. rewrite E1, E2, E3 in H.
  replace (_max_num self =? 0) with false in H by (symmetry; apply Z.eqb_neq; lia).
  cbn [for_each] in H.
  assert (Hq : quiet s s').
  { revert H. match goal with |- ?m s = _ -> _ => assert (Hp : pres quiet m) end.
    { pres_steps quiet_refl quiet_trans;
        auto using quiet_log_if_dir, quiet_log_state_vector. }
    apply Hp. }
  split; [exact Hq|]. split; [apply effects_batches, Hq|].
  intros Hready Hv. destruct (state_vector s) as [v|] eqn:V; [clear Hv | contradiction].
  apply bind_inv in H as [([] & s1 & H1 & H) | (e & H1 & _)];
    pose proof (quiet_log_if_dir _ _ _ _ _ _ H1) as (_ & _ & V1 & _);
    log_line H1 Hready R1.
  apply bind_inv in H as [([] & s2 & H2 & H) | (e & H2 & _)].
  - destruct (log_state_vector_ready s2 v) as (s3 & L3).
    + apply bind_inv in H2 as [([] & s3 & H3 & H2) | (e & H3 & _)]; [|discriminate H3].
      inversion H3; subst; clear H3.
      apply bind_inv in H2 as [([] & s4 & H4 & H2) | (e & H4 & _)]; [|discriminate H4].
      inversion H4; subst; clear H4.
      apply bind_inv in H2 as [(q & s5 & H5 & H2) | (e & H5 & _)]; [|discriminate H5].
      inversion H5; subst; clear H5. log_line H2 R1 R2. exact R2.
    + assert (Hq2 : quiet s1 s2).
      { revert H2. match goal with |- ?m s1 = _ -> _ => assert (Hp : pres quiet m) end.
        { pres_steps quiet_refl quiet_trans; auto using quiet_log_if_dir. }
        apply Hp. }
      destruct Hq2 as (_ & _ & V2 & _). congruence.
    + rewrite L3 in H. inversion H. reflexivity.
  - exfalso.
    apply bind_inv in H2 as [([] & s3 & H3 & H2) | (e' & H3 & _)]; [|discriminate H3].
    inversion H3; subst; clear H3.
    apply bind_inv in H2 as [([] & s4 & H4 & H2) | (e' & H4 & _)]; [|discriminate H4].
    inversion H4; subst; clear H4.
    apply bind_inv in H2 as [(q & s5 & H5 & H2) | (e' & H5 & _)]; [|discriminate H5].
    inversion H5; subst; clear H5. log_line H2 R1 R2.
Qed.

(** A batch size of zero and at least one identifier: the division raises
    before anything is asked of the service or stored. *)
Theorem query_requests_zero_max_num self ids s r s' :
  _max_num self = 0 ->
  ids <> [] ->
  query_requests self ids s = (r, s') ->
  quiet s s'
  /\ batches_of (trace s') = batches_of (trace s)
  /\ (log_ready s -> r = Raise ZeroDivisionError).
Proof.
  intros HM Hne H. unfold query_requests in H. cbv zeta in H. rewrite HM in H.
  replace (Z.of_nat (length ids) <=? 0) with false in H
    by (symmetry; apply Z.leb_gt; destruct ids; [contradiction | simpl; lia]).
  change (0 =? 0) with true in H. cbv iota in H.
  apply bind_inv in H as [([] & s1 & H1 & H) | (e & H1 & ->)].
  2:{ pose proof (quiet_log_if_dir _ _ _ _ _ _ H1) as Hq.
      split; [exact Hq|]. split; [apply effects_batches, Hq|].
      intros Hready. log_line H1 Hready R1. }
  pose proof (quiet_log_if_dir _ _ _ _ _ _ H1) as Hq.
  apply bind_inv in H as [([] & s2 & H2 & H) | (e & H2 & ->)].
  { apply bind_inv in H2 as [([] & s3 & H3 & H2) | (e' & H3 & He)]; discriminate. }
  apply bind_inv in H2 as [([] & s3 & H3 & H2) | (e' & H3 & He)]; [discriminate H3|].
  inversion H3; subst; clear H3.
  split; [exact Hq|]. split; [apply effects_batches, Hq|]. intros _. exact He.
Qed.

Lemma query_requests_negative_max_num_witness :
  let run := query_requests (Scenario.ctios (-2))
               [Scenario.id "101"; Scenario.id "102"; Scenario.id "103"] Scenario.ready in
  _max_num (Scenario.ctios (-2)) < 0
  /\ (quiet Scenario.ready run.2
      /\ batches_of (trace run.2) = batches_of (trace Scenario.ready)
      /\ (log_ready Scenario.ready -> state_vector Scenario.ready <> None -> run.1 = Ok tt)).
Proof.
  cbv zeta. split; [reflexivity|].
  apply (query_requests_negative_max_num (Scenario.ctios (-2))
           [Scenario.id "101"; Scenario.id "102"; Scenario.id "103"]);
    [reflexivity | apply surjective_pairing].
Defined.

Lemma query_requests_zero_max_num_witness :
  let run := query_requests (Scenario.ctios 0) [Scenario.id "101"] Scenario.ready in
  _max_num (Scenario.ctios 0) = 0
  /\ [Scenario.id "101"] <> []
  /\ (quiet Scenario.ready run.2
      /\ batches_of (trace run.2) = batches_of (trace Scenario.ready)
      /\ (log_ready Scenario.ready -> run.1 = Raise ZeroDivisionError)).
Proof.
  cbv zeta. split; [reflexivity|]. split; [discriminate|].
  apply (query_requests_zero_max_num (Scenario.ctios 0) [Scenario.id "101"]);
    [reflexivity | discriminate | apply surjective_pairing].
Defined.

(** ** The number of requests of a run *)

Lemma length_plan (max_num : Z) (ids : list Row) :
  0 < max_num -> ids <> [] ->
  Z.of_nat (length (plan max_num ids))
  = (Z.of_nat (length ids) + max_num - 1) / max_num.
Proof.
  intros HM Hne. rewrite plan_spec by assumption. cbv zeta.
  set (m := Z.to_nat max_num). set (n := length ids).
  assert (Hn : (0 < n)%nat) by (unfold n; destruct ids; [contradiction | simpl; lia]).
  assert (Hm : (0 < m)%nat) by (unfold m; lia).
  assert (HmZ : Z.of_nat m = max_num) by (unfold m; lia).
  destruct (Z.of_nat n <=? max_num) eqn:E.
  - apply Z.leb_le in E. simpl.
    apply (Z.div_unique_pos _ _ 1 (Z.of_nat n - 1)); lia.
  - assert (Hdiv : (n = n / m * m + n mod m)%nat).
    { rewrite (Nat.div_mod_eq n m) at 1. lia. }
    assert (Hlt : (n mod m < m)%nat) by (apply Nat.mod_upper_bound; lia).
    set (q := (n / m)%nat) in *. set (k := (q * m)%nat).
    rewrite length_app. unfold full_batches. rewrite length_map, length_seq.
    assert (Hd : length (drop k ids) = (n mod m)%nat)
      by (rewrite length_drop; unfold k; fold n; lia).
    destruct (drop k ids) as [|x l] eqn:D; simpl in Hd |- *.
    + apply (Z.div_unique_pos _ _ _ (max_num - 1)); [lia|].
      rewrite <- HmZ. nia.
    + apply (Z.div_unique_pos _ _ _ (Z.of_nat (n mod m) - 1)); [lia|].
      rewrite <- HmZ. nia.
Qed.

(** A run that returns has asked the service once for every started
    [max_num] identifiers: the number of requests is the length of the
    list divided by the batch size, rounded up. *)
Theorem query_requests_number_of_requests self ids s s' :
  0 < _max_num self ->
  ids <> [] ->
  query_requests self ids s = (Ok tt, s') ->
  Z.of_nat (length (batches_of (trace s')))
  = Z.of_nat (length (batches_of (trace s)))
    + (Z.of_nat (length ids) + _max_num self - 1) / _max_num self.
Proof.
  intros HM Hne H.
  apply query_requests_batches in H as (bs & rest & Hb & Hp & Hr).
  rewrite (Hr eq_refl), app_nil_r in Hp. subst bs.
  rewrite Hb, length_app, Nat2Z.inj_add, length_plan by assumption. reflexivity.
Qed.

(** Three identifiers in batches of two: two requests. *)
Lemma query_requests_number_of_requests_witness :
  let ids := [Scenario.id "101"; Scenario.id "102"; Scenario.id "103"] in
  let run := query_requests (Scenario.ctios 2) ids Scenario.ready in
  0 < _max_num (Scenario.ctios 2)
  /\ ids <> []
  /\ run = (Ok tt, run.2)
  /\ Z.of_nat (length (batches_of (trace run.2)))
     = Z.of_nat (length (batches_of (trace Scenario.ready)))
       + (Z.of_nat (length ids) + _max_num (Scenario.ctios 2) - 1)
         / _max_num (Scenario.ctios 2).
Proof.
  cbv zeta. split; [reflexivity|]. split; [discriminate|].
  split; [vm_compute; reflexivity|].
  apply (query_requests_number_of_requests (Scenario.ctios 2)
           [Scenario.id "101"; Scenario.id "102"; Scenario.id "103"]);
    [reflexivity | discriminate | vm_compute; reflexivity].
Defined.

(** ** [_transform_names]: what the mechanical column name keeps of the
    attribute name *)

(** Every character of the name is ASCII. *)
Fixpoint ascii_only (s : string) : bool :=
  match s with
  | EmptyString => true
  | String c s' => (nat_of_ascii c <? 128)%nat && ascii_only s'
  end.

Fixpoint has_underscore (s : string) : bool :=
  match s with
  | EmptyString => false
  | String c s' => Ascii.eqb c "_" || has_underscore s'
  end.

Fixpoint has_lower (s : string) : bool :=
  match s with
  | EmptyString => false
  | String c s' => is_az c || has_lower s'
  end.

Fixpoint count_AZ (s : string) : nat :=
  match s with
  | EmptyString => 0%nat
  | String c s' => ((if is_AZ c then 1 else 0) + count_AZ s')%nat
  end.

Definition lower_char (c : ascii) : ascii :=
  if is_AZ c then ascii_of_nat (nat_of_ascii c + 32) else c.

(** Reading a mechanical column name back: an underscore announces an
    upper-case letter, every other character was not upper-case. *)
Fixpoint untransform (s : string) : string :=
  match s with
  | EmptyString => EmptyString
  | String c s' =>
      if Ascii.eqb c "_" then
        match s' with
        | String d s'' => String d (untransform s'')
        | EmptyString => EmptyString
        end
      else String (lower_char c) (untransform s')
  end.

Ltac by_cases_on_ascii c :=
  destruct c as [[] [] [] [] [] [] [] []]; intros;
  first [reflexivity | discriminate | (split; reflexivity)].

Lemma upper_char_fixes_AZ c :
  is_AZ c = true -> upper_char c = c /\ Ascii.eqb c "_" = false.
Proof. by_cases_on_ascii c. Qed.

Lemma lower_upper_char c :
  is_AZ c = false -> Ascii.eqb c "_" = false ->
  lower_char (upper_char c) = c /\ Ascii.eqb (upper_char c) "_" = false.
Proof. by_cases_on_ascii c. Qed.

Lemma upper_char_not_lower c : is_az (upper_char c) = false.
Proof. by_cases_on_ascii c. Qed.

Lemma untransform_transform_names x :
  has_underscore x = false -> untransform (_transform_names x) = x.
Proof.
  unfold _transform_names. induction x as [|c x IH]; intros H; [reflexivity|].
  simpl in H. apply orb_false_elim in H as [Hc Hx]. specialize (IH Hx).
  simpl. destruct (is_AZ c) eqn:E.
  - destruct (upper_char_fixes_AZ c E) as [Hu _].
    change (str_upper (String "_" (String c (re_sub_AZ x))))
      with (String "_" (String (upper_char c) (str_upper (re_sub_AZ x)))).
    simpl. now rewrite Hu, IH.
  - destruct (lower_upper_char c E Hc) as [Hl Hu].
    simpl. now rewrite Hu, Hl, IH.
Qed.

(** Two ASCII attribute names without an underscore never share a
    mechanical column name. *)
Theorem transform_names_injective x y :
  ascii_only x = true ->
  ascii_only y = true ->
  has_underscore x = false ->
  has_underscore y = false ->
  _transform_names x = _transform_names y ->
  x = y.
Proof.
  intros _ _ Hx Hy H.
  rewrite <- (untransform_transform_names x Hx), <- (untransform_transform_names y Hy).
  now rewrite H.
Qed.

Lemma transform_names_injective_witness :
  ascii_only "stavDat" = true
  /\ has_underscore "stavDat" = false
  /\ _transform_names "stavDat" = _transform_names "stavDat"
  /\ "stavDat" = "stavDat".
Proof.
  split; [reflexivity|]. split; [reflexivity|]. split; [reflexivity|].
  apply (transform_names_injective "stavDat" "stavDat"); reflexivity.
Defined.

(** With an underscore in a name, two names can share a column. *)
Example transform_names_collision :
  _transform_names "stav_dat" = _transform_names "stavDat" /\ "stav_dat" <> "stavDat".
Proof. split; [reflexivity | discriminate]. Qed.

(** The mechanical column name of an ASCII attribute name has no
    lower-case letter, and is longer than the attribute name by the number
    of its upper-case letters. *)
Theorem transform_names_shape x :
  ascii_only x = true ->
  has_lower (_transform_names x) = false
  /\ String.length (_transform_names x) = (String.length x + count_AZ x)%nat.
Proof.
  intros _.
  unfold _transform_names. induction x as [|c x [IH1 IH2]]; [split; reflexivity|].
  simpl. destruct (is_AZ c) eqn:E.
  - change (str_upper (String "_" (String c (re_sub_AZ x))))
      with (String "_" (String (upper_char c) (str_upper (re_sub_AZ x)))).
    simpl. rewrite upper_char_not_lower, IH1, IH2. split; [reflexivity | lia].
  - simpl. rewrite upper_char_not_lower, IH1, IH2. split; [reflexivity | lia].
Qed.

Lemma transform_names_shape_witness :
  ascii_only "pOSIdent" = true
  /\ (has_lower (_transform_names "pOSIdent") = false
      /\ String.length (_transform_names "pOSIdent")
         = (String.length "pOSIdent" + count_AZ "pOSIdent")%nat).
Proof. split; [reflexivity|]. apply transform_names_shape. reflexivity. Defined.

(** ** The identifiers of a record (lines 291-298) *)

(** The value a local variable has after the loop over the children: the
    text of the first child with the tag, or what it was bound to before. *)
Definition bound_by (os : Element) (t : string) (old : option cell) : option cell :=
  match find_child os t with
  | Some e => Some (text e)
  | None => old
  end.

Lemma set_locals_same s :
  set_locals (mkLocals (posident (locals s)) (osid (locals s)) (conn (locals s))) s = s.
Proof. destruct s as [? ? ? [? ? ?] ? ? ? ?]. reflexivity. Qed.

Lemma find_child_of_child os t c :
  In c (children os) -> has_tag t c = true -> exists e, find_child os t = Some e.
Proof.
  intros Hin Ht. unfold find_child. destruct (List.find (has_tag t) (children os)) eqn:F.
  - eauto.
  - rewrite (List.find_none _ _ F c Hin) in Ht. discriminate Ht.
Qed.

Lemma find_child_existsb os t :
  existsb (has_tag t) (children os)
  = match find_child os t with Some _ => true | None => false end.
Proof.
  unfold find_child. destruct (List.find (has_tag t) (children os)) eqn:F.
  - apply List.find_some in F as [Hin Ht]. apply existsb_exists. eauto.
  - apply not_true_is_false. intros H. apply existsb_exists in H as (c & Hin & Ht).
    rewrite (List.find_none _ _ F c Hin) in Ht. discriminate Ht.
Qed.

Lemma read_identifiers_loop os : forall cs s,
  incl cs (children os) ->
  for_each cs
    (fun child _ =>
       let name := tag child in
       (if String.eqb name tag_pOSIdent
        then p ← find_text os name; set_posident p
        else ret tt);;
       (if String.eqb name tag_osId
        then o ← find_text os name; set_osid o
        else ret tt)) tt s
  = (Ok tt,
     set_locals
       (mkLocals
          (if existsb (has_tag tag_pOSIdent) cs
           then bound_by os tag_pOSIdent (posident (locals s)) else posident (locals s))
          (if existsb (has_tag tag_osId) cs
           then bound_by os tag_osId (osid (locals s)) else osid (locals s))
          (conn (locals s))) s).
Proof.
  induction cs as [|c cs IH]; intros s Hin.
  - simpl. now rewrite set_locals_same.
  - assert (Hc : In c (children os)) by (apply Hin; left; reflexivity).
    assert (Hcs : incl cs (children os)) by (intros x Hx; apply Hin; right; exact Hx).
    cbn [for_each existsb]. unfold mbind, M_bind, bind at 1. cbv zeta.
    unfold has_tag at 1 3.
    destruct (String.eqb (tag c) tag_pOSIdent) eqn:EP;
      destruct (String.eqb (tag c) tag_osId) eqn:EO.
    + apply String.eqb_eq in EP. apply String.eqb_eq in EO. rewrite EP in EO.
      discriminate EO.
    + destruct (find_child_of_child os tag_pOSIdent c Hc EP) as [e He].
      apply String.eqb_eq in EP. rewrite EP.
      unfold find_text, set_posident, bound_by. rewrite He. unfold_monad.
      rewrite (IH _ Hcs). simpl. unfold bound_by. rewrite He.
      destruct (existsb (has_tag tag_pOSIdent) cs); reflexivity.
    + destruct (find_child_of_child os tag_osId c Hc EO) as [e He].
      apply String.eqb_eq in EO. rewrite EO.
      unfold find_text, set_osid, bound_by. rewrite He. unfold_monad.
      rewrite (IH _ Hcs). simpl. unfold bound_by. rewrite He.
      destruct (existsb (has_tag tag_osId) cs); reflexivity.
    + unfold_monad. rewrite (IH _ Hcs). reflexivity.
Qed.

(** The loop over the children of a record never raises.  It binds
    [posident] and [osid] to the text of the first child with the tag,
    also when several children have it, and a variable whose tag no child
    has keeps the value the previous record left. *)
Theorem read_identifiers_spec os s :
  read_identifiers os s
  = (Ok tt,
     set_locals
       (mkLocals (bound_by os tag_pOSIdent (posident (locals s)))
                 (bound_by os tag_osId (osid (locals s)))
                 (conn (locals s))) s).
Proof.
  unfold read_identifiers. rewrite read_identifiers_loop by apply incl_refl.
  rewrite !find_child_existsb. unfold bound_by.
  destruct (find_child os tag_pOSIdent); destruct (find_child os tag_osId); reflexivity.
Qed.

(** ** The columns a record is written to (lines 323-328) *)

(** Column [c] is what one of the two stages makes of attribute [x]. *)
Definition column_of (self : CtiOs) (col_names : list string) (x c : string) : Prop :=
  (c = _transform_names x /\ str_in c col_names = true)
  \/ (str_in (_transform_names x) col_names = false
      /\ exists m, read_csv_as_dictionary self = Some m /\ m !! x = Some c).

Lemma dict_set_In {V} (k : string) (w : V) d c v :
  In (c, v) (dict_set k w d) -> (c = k /\ v = w) \/ In (c, v) d.
Proof.
  induction d as [|[k' v'] d IH]; simpl.
  - intros [H|[]]. inversion H. auto.
  - destruct (String.eqb k' k) eqn:E.
    + apply String.eqb_eq in E. subst k'. intros [H|H]; [inversion H; auto | auto].
    + intros [H|H]; [auto|]. destruct (IH H); auto.
Qed.

Lemma column_name_inv self col_names x s c s' :
  column_name self col_names x s = (Ok c, s') ->
  s' = s /\ column_of self col_names x c.
Proof.
  unfold column_name, column_of. cbv zeta.
  destruct (str_in (_transform_names x) col_names) eqn:E; simpl.
  - intros H. inversion H; subst. auto.
  - unfold _transform_names_dict.
    assert (Hraise : forall s0,
      (log_if_dir EXCEPTION msg_unmappable [];; raise (CtiOsError msg_unmappable)) s0
      = (Ok c, s') -> False).
    { intros s0 H. apply bind_inv in H as [([] & s1 & _ & H) | (e & _ & H)];
        discriminate H. }
    destruct (read_csv_as_dictionary self) as [m|] eqn:D; [|intros H; destruct (Hraise _ H)].
    destruct (m !! x) as [c'|] eqn:L; [|intros H; destruct (Hraise _ H)].
    intros H. inversion H; subst. split; [reflexivity|]. right. eauto.
Qed.

Lemma translate_loop self col_names attrs : forall acc s d s',
  for_each attrs
    (fun '(xml_name, xml_value) database_attributes =>
       database_name ← column_name self col_names xml_name;
       ret (dict_set database_name xml_value database_attributes)) acc s = (Ok d, s') ->
  s' = s
  /\ forall (c : string) (v : cell), In (c, v) d ->
       In (c, v) acc \/ exists x, In (x, v) attrs /\ column_of self col_names x c.
Proof.
  induction attrs as [|[x w] attrs IH]; intros acc s d s' H; simpl in H.
  - inversion H; subst. auto.
  - apply bind_inv in H as [(acc1 & s1 & H1 & H) | (e & _ & He)]; [|discriminate He].
    apply bind_inv in H1 as [(c1 & s2 & H2 & H1) | (e & _ & He)]; [|discriminate He].
    apply column_name_inv in H2 as [-> Hc]. inversion H1; subst; clear H1.
    destruct (IH _ _ _ _ H) as [-> Hd]. split; [reflexivity|].
    intros c v Hin. destruct (Hd c v Hin) as [Hacc | (x' & Hx & Hcol)].
    + apply dict_set_In in Hacc as [[-> ->] | Hacc]; [|auto].
      right. exists x. split; [left; reflexivity | exact Hc].
    + right. exists x'. split; [right; exact Hx | exact Hcol].
Qed.

(** When the translation of a record returns, every column it names comes
    from an attribute of the record, with that attribute's value: it is the
    mechanical name and a column of the table, or the mechanical name is no
    column and the attribute map gives it.  Nothing is logged. *)
Theorem translate_columns self col_names attrs s d s' :
  translate self col_names attrs s = (Ok d, s') ->
  s' = s
  /\ forall (c : string) (v : cell), In (c, v) d ->
       exists x, In (x, v) attrs /\ column_of self col_names x c.
Proof.
  intros H. apply translate_loop in H as [Hs Hd]. split; [exact Hs|].
  intros c v Hin. destruct (Hd c v Hin) as [[] | Hx]. exact Hx.
Qed.

Lemma translate_columns_witness :
  let attrs := [("nazev", Some "Alfa"); ("StavDat", Some "2019")] in
  let d := [("NAZEV", Some "Alfa"); ("STAV_DATUM", Some "2019")] in
  translate (Scenario.ctios 2) ["ID"; "NAZEV"] attrs Scenario.ready = (Ok d, Scenario.ready)
  /\ (Scenario.ready = Scenario.ready
      /\ forall (c : string) (v : cell), In (c, v) d ->
           exists x, In (x, v) attrs /\ column_of (Scenario.ctios 2) ["ID"; "NAZEV"] x c).
Proof.
  cbv zeta. split; [vm_compute; reflexivity|].
  apply (translate_columns (Scenario.ctios 2) ["ID"; "NAZEV"]
           [("nazev", Some "Alfa"); ("StavDat", Some "2019")]).
  vm_compute. reflexivity.
Defined.

(** ** The rows and columns of the table over any number of runs *)

(** The table has [n] rows and the columns [cols0], or those and OS_ID. *)
Definition shape (cols0 : list string) (n : nat) (db : option Table) : Prop :=
  match db with
  | Some t => length (rows t) = n
              /\ (columns t = cols0 \/ columns t = cols0 ++ ["OS_ID"])
  | None => False
  end.

(** The committed table and the working copy of an open transaction. *)
Definition shaped (cols0 : list string) (n : nat) (s : State) : Prop :=
  shape cols0 n (opsub s)
  /\ match txn s with Some w => shape cols0 n w | None => True end.

Definition keeps_shape (cols0 : list string) (n : nat) (s s' : State) : Prop :=
  shaped cols0 n s -> shaped cols0 n s'.

Lemma col_index_present c cols : col_index c cols = None -> str_in c cols = false.
Proof.
  unfold str_in. induction cols as [|d cols IH]; [reflexivity|].
  cbn [col_index existsb]. destruct (sql_name_eqb d c) eqn:E; [discriminate|].
  destruct (col_index c cols); [discriminate|]. intros _.
  destruct (String.eqb c d) eqn:S.
  - apply String.eqb_eq in S. subst d. unfold sql_name_eqb in E.
    rewrite String.eqb_refl in E. discriminate E.
  - now apply IH.
Qed.

Section Shape.

Variables (cols0 : list string) (n : nat).

Let R := keeps_shape cols0 n.

Lemma keeps_shape_refl s : R s s.
Proof. intros H. exact H. Qed.

Lemma keeps_shape_trans s1 s2 s3 : R s1 s2 -> R s2 s3 -> R s1 s3.
Proof. unfold R, keeps_shape. auto. Qed.

Lemma keeps_shape_same s s' : opsub s' = opsub s -> txn s' = txn s -> R s s'.
Proof. intros Ho Ht. unfold R, keeps_shape, shaped. now rewrite Ho, Ht. Qed.

Lemma keeps_shape_close s : R s (set_txn None s).
Proof. intros [H _]. split; [exact H | exact I]. Qed.

Lemma shape_update col v p t t' :
  table_update col v p t = Some t' -> shape cols0 n (Some t) -> shape cols0 n (Some t').
Proof.
  intros U [Hr Hc]. pose proof (table_update_columns _ _ _ _ _ U) as Hcol.
  unfold table_update in U.
  destruct (col_index col (columns t)); [|discriminate].
  destruct (col_index "ID" (columns t)); inversion U; subst; clear U.
  simpl. rewrite length_map. auto.
Qed.

Lemma shape_add_os_id t t' :
  table_add_os_id t = Some t' -> shape cols0 n (Some t) -> shape cols0 n (Some t').
Proof.
  unfold table_add_os_id. intros A [Hr Hc].
  destruct (col_index "OS_ID" (columns t)) eqn:E; inversion A; subst; clear A.
  simpl. rewrite length_map. split; [first [exact Hr | reflexivity]|].
  destruct Hc as [Hc|Hc]; [right; now rewrite Hc|].
  apply col_index_present in E. rewrite Hc, str_in_snoc in E. discriminate E.
Qed.

(** Every statement of the pipeline keeps the shape, the ALTER included. *)
Lemma keeps_shape_execute st : pres R (execute st).
Proof.
  intros s r s' H. unfold execute in H.
  destruct (engine st s) as [s1|] eqn:E; inversion H; subst; clear H.
  2:{ apply keeps_shape_same; reflexivity. }
  apply keeps_shape_trans with s1; [|apply keeps_shape_same; reflexivity].
  intros [Ho Ht]. unfold shaped.
  destruct st; simpl in E.
  - inversion E; subst. now split.
  - destruct (current_db s); inversion E; subst. now split.
  - unfold current_db in E. destruct (txn s) as [w|] eqn:T.
    + destruct w as [t|]; [|discriminate].
      destruct (table_add_os_id t) as [t'|] eqn:A; inversion E; subst. simpl.
      split; [exact Ho | eapply shape_add_os_id; eauto].
    + destruct (opsub s) as [t|] eqn:O; [|discriminate].
      destruct (table_add_os_id t) as [t'|] eqn:A; inversion E; subst. simpl.
      rewrite T. split; [eapply shape_add_os_id; eauto | exact I].
  - inversion E; subst. now split.
  - destruct (txn s) eqn:T; inversion E; subst. simpl. now split.
  - unfold current_db in E. destruct (txn s) as [w|] eqn:T.
    + destruct w as [t|]; [|discriminate].
      destruct (table_update col v posident0 t) as [t'|] eqn:U; inversion E; subst. simpl.
      split; [exact Ho | eapply shape_update; eauto].
    + destruct (opsub s) as [t|] eqn:O; [|discriminate].
      destruct (table_update col v posident0 t) as [t'|] eqn:U; inversion E; subst. simpl.
      rewrite O. split; [exact Ho | eapply shape_update; eauto].
  - destruct (txn s) as [w|] eqn:T; inversion E; subst. simpl. now split.
  - destruct (txn s) as [w|] eqn:T; inversion E; subst. simpl. now split.
Qed.

Lemma keeps_shape_incr f : pres R (incr_state_vector f).
Proof.
  unfold incr_state_vector. apply (pres_bind _ keeps_shape_trans).
  - apply pres_get_state_vector; [exact keeps_shape_refl | exact keeps_shape_trans].
  - intros v. apply pres_modify. intros s. now apply keeps_shape_same.
Qed.

Lemma keeps_shape_query_requests self ids : pres R (query_requests self ids).
Proof.
  assert (He : forall st, st <> AlterAddOsId -> pres R (execute st))
    by (intros st _; apply keeps_shape_execute).
  apply pres_query_requests;
    first [ exact keeps_shape_refl | exact keeps_shape_trans | exact keeps_shape_close
          | exact keeps_shape_incr | exact He
          | (apply pres_open_and_evolve;
             first [ exact keeps_shape_refl | exact keeps_shape_trans
                   | exact keeps_shape_close | exact He | apply keeps_shape_execute
                   | intros; apply keeps_shape_same; reflexivity ])
          | intros; apply keeps_shape_same; reflexivity ].
Qed.

Lemma keeps_shape_run_many runs : forall s, R s (run_many runs s).
Proof.
  induction runs as [|[self ids] runs IH]; intros s; simpl.
  - apply keeps_shape_refl.
  - apply keeps_shape_trans with (query_requests self ids s).2; [|apply IH].
    destruct (query_requests self ids s) as [r s1] eqn:E. simpl.
    exact (keeps_shape_query_requests self ids s r s1 E).
Qed.

End Shape.

(** However many runs there are and however they end, the table keeps its
    number of rows, and its columns are those it had, with OS_ID after them
    at most: no run adds or deletes a row, or drops or renames a column. *)
Theorem runs_keep_rows_and_columns runs s t0 :
  opsub s = Some t0 ->
  txn s = None ->
  exists t, opsub (run_many runs s) = Some t
            /\ length (rows t) = length (rows t0)
            /\ (columns t = columns t0 \/ columns t = columns t0 ++ ["OS_ID"]).
Proof.
  intros Ho Ht.
  destruct (keeps_shape_run_many (columns t0) (length (rows t0)) runs s) as [H _].
  { unfold shaped. rewrite Ho, Ht. simpl. auto. }
  unfold shape in H. destruct (opsub (run_many runs s)) as [t|]; [|contradiction].
  exists t. split; [reflexivity | exact H].
Qed.

Lemma runs_keep_rows_and_columns_witness :
  let runs := [(Scenario.ctios 2,
                [Scenario.id "101"; Scenario.id "104"]);
               (Scenario.ctios 1,
                [Scenario.id "105"; Scenario.id "101"])] in
  opsub Scenario.ready = Some Scenario.opsub0
  /\ txn Scenario.ready = None
  /\ exists t, opsub (run_many runs Scenario.ready) = Some t
               /\ length (rows t) = length (rows Scenario.opsub0)
               /\ (columns t = columns Scenario.opsub0
                   \/ columns t = columns Scenario.opsub0 ++ ["OS_ID"]).
Proof.
  cbv zeta. split; [reflexivity|]. split; [reflexivity|].
  apply runs_keep_rows_and_columns; reflexivity.
Defined.

(** ** Relations that hold over runs although a counter moves *)

Section Runs.

Variable R : State -> State -> Prop.
Variable self : CtiOs.
Hypothesis R_refl : forall s, R s s.
Hypothesis R_trans : forall s1 s2 s3, R s1 s2 -> R s2 s3 -> R s1 s3.
Hypothesis R_locals : forall l s, R s (set_locals l s).
Hypothesis R_log : forall lvl msg args s, R s (add_event (EvLog lvl msg args) s).
Hypothesis R_post : forall x s, R s (add_event (EvPost x) s).
Hypothesis R_call : forall ids s, R s (add_event (EvCall ids) s).
Hypothesis R_persist : forall os, pres R (persist self os).
Hypothesis R_neplatny : pres R (incr_state_vector incr_neplatny).
Hypothesis R_expirovany : pres R (incr_state_vector incr_expirovany).
Hypothesis R_neexistuje : pres R (incr_state_vector incr_neexistuje).
Hypothesis R_uspesne : pres R (incr_state_vector incr_uspesne).

Lemma run_log_if_dir lvl msg args : pres R (log_if_dir lvl msg args).
Proof. apply pres_log_if_dir; assumption. Qed.

Lemma run_classify os : pres R (classify os).
Proof.
  unfold classify. pres_steps R_refl R_trans;
    first [ assumption
          | apply run_log_if_dir
          | apply pres_find_text; assumption
          | apply pres_set_posident; assumption ].
Qed.

Lemma run_process_os os : pres R (process_os self os).
Proof.
  unfold process_os. apply (pres_bind _ R_trans); [apply run_classify|].
  intros [|]; [apply (pres_ret _ R_refl) | apply R_persist].
Qed.

Lemma run_save_attributes_to_db x : pres R (_save_attributes_to_db self x).
Proof.
  unfold _save_attributes_to_db. pres_steps R_refl R_trans;
    first [ apply run_process_os
          | apply pres_get_log_dir; assumption
          | apply pres_get_state_vector; assumption
          | apply pres_modify; intros s; apply R_locals ].
Qed.

Lemma run_serve ids : pres R (serve self ids).
Proof.
  unfold serve. pres_steps R_refl R_trans;
    first [ apply run_save_attributes_to_db
          | apply pres_draw_up_xml_request; assumption
          | apply pres_call_service; assumption ].
Qed.

Lemma run_query_service ids : pres R (_query_service self ids).
Proof.
  unfold _query_service. pres_steps R_refl R_trans.
  - apply pres_modify. intros s. apply R_call.
  - apply run_serve.
Qed.

Lemma run_query_requests ids : pres R (query_requests self ids).
Proof.
  unfold query_requests. cbv zeta. pres_steps R_refl R_trans;
    first [ apply run_log_if_dir
          | apply run_query_service
          | apply pres_log_state_vector; assumption ].
Qed.

End Runs.

(** ** No transaction is left open *)

Definition closed (s s' : State) : Prop := txn s = None -> txn s' = None.

Lemma closed_refl s : closed s s.
Proof. intros H. exact H. Qed.

Lemma closed_trans s1 s2 s3 : closed s1 s2 -> closed s2 s3 -> closed s1 s3.
Proof. unfold closed. auto. Qed.

Lemma closed_same s s' : txn s' = txn s -> closed s s'.
Proof. unfold closed. congruence. Qed.

Lemma closed_close s : closed s (set_txn None s).
Proof. intros _. reflexivity. Qed.

Ltac closed_side :=
  first [ exact closed_refl | exact closed_trans | exact closed_close
        | intros; apply closed_same; reflexivity ].

Lemma closed_incr f : pres closed (incr_state_vector f).
Proof.
  unfold incr_state_vector. apply (pres_bind _ closed_trans).
  - apply pres_get_state_vector; closed_side.
  - intros v. apply pres_modify. closed_side.
Qed.

Lemma closed_open : pres closed open_and_evolve.
Proof.
  unfold open_and_evolve. apply (pres_try_except _ closed_trans).
  - apply (pres_bind _ closed_trans); [apply pres_create_connection; closed_side|].
    intros _ s r s' H T. exact (proj1 (settled_evolve _ _ _ H T)).
  - apply pres_conn_Error; closed_side.
  - apply (pres_bind _ closed_trans); [apply pres_conn_close; closed_side | intros _].
    apply (pres_bind _ closed_trans); [apply pres_log_if_dir; closed_side | intros _].
    apply (pres_raise _ closed_refl).
Qed.

Lemma closed_update_opsub attrs : pres closed (update_opsub attrs).
Proof.
  intros s r s' H _. apply update_opsub_inv in H as (r1 & s1 & _ & _ & T). exact T.
Qed.

Lemma closed_persist self os : pres closed (persist self os).
Proof.
  unfold persist.
  apply (pres_bind _ closed_trans); [apply pres_read_identifiers; closed_side | intros _].
  apply (pres_bind _ closed_trans); [apply pres_read_details; closed_side | intros attrs].
  apply (pres_bind _ closed_trans); [apply closed_open | intros cols].
  apply (pres_bind _ closed_trans); [apply pres_translate; closed_side | intros d].
  apply closed_update_opsub.
Qed.

Lemma closed_query_requests self ids : pres closed (query_requests self ids).
Proof.
  apply run_query_requests;
    first [ exact (closed_persist self) | apply closed_incr | closed_side ].
Qed.

(** Whatever way the runs end, by returning or by raising, no transaction
    is open afterwards: every path out of a record commits, rolls back
    or closes the connection. *)
Theorem runs_leave_no_transaction runs : forall s,
  txn s = None -> txn (run_many runs s) = None.
Proof.
  induction runs as [|[self ids] runs IH]; intros s T; simpl; [exact T|].
  apply IH. destruct (query_requests self ids s) as [r s1] eqn:E. simpl.
  exact (closed_query_requests self ids s r s1 E T).
Qed.

Lemma runs_leave_no_transaction_witness :
  txn Scenario.ready = None
  /\ txn (run_many [(Scenario.ctios 2, [Scenario.id "101"; Scenario.id "104"]);
                    (Scenario.ctios 1, [Scenario.id "105"; Scenario.id "999"])]
            Scenario.ready) = None.
Proof. split; [reflexivity|]. apply runs_leave_no_transaction. reflexivity. Defined.

(** ** The counters accumulate *)

Definition le_counters (v v' : StateVector) : Prop :=
  neplatny_identifikator v <= neplatny_identifikator v'
  /\ expirovany_identifikator v <= expirovany_identifikator v'
  /\ opravneny_subjekt_neexistuje v <= opravneny_subjekt_neexistuje v'
  /\ uspesne_stazeno v <= uspesne_stazeno v'.

Definition counters_grow (s s' : State) : Prop :=
  forall v, state_vector s = Some v ->
            exists v', state_vector s' = Some v' /\ le_counters v v'.

Lemma le_counters_refl v : le_counters v v.
Proof. unfold le_counters. lia. Qed.

Lemma counters_grow_same s s' : state_vector s' = state_vector s -> counters_grow s s'.
Proof. intros H v Hv. exists v. rewrite H. split; [exact Hv | apply le_counters_refl]. Qed.

Lemma counters_grow_refl s : counters_grow s s.
Proof. now apply counters_grow_same. Qed.

Lemma counters_grow_trans s1 s2 s3 :
  counters_grow s1 s2 -> counters_grow s2 s3 -> counters_grow s1 s3.
Proof.
  intros H12 H23 v Hv. destruct (H12 v Hv) as (v2 & Hv2 & L12).
  destruct (H23 v2 Hv2) as (v3 & Hv3 & L23). exists v3. split; [exact Hv3|].
  unfold le_counters in *. lia.
Qed.

Lemma counters_grow_incr f :
  (forall v, le_counters v (f v)) -> pres counters_grow (incr_state_vector f).
Proof.
  intros Hf s r s' H v Hv.
  unfold incr_state_vector, get_state_vector, modify, get in H. unfold_monad.
  rewrite Hv in H. inversion H; subst. simpl. eauto.
Qed.

Lemma counters_grow_persist self os : pres counters_grow (persist self os).
Proof.
  intros s r s' H. apply counters_grow_same. exact (same_counters_persist self os s r s' H).
Qed.

Lemma counters_grow_query_requests self ids : pres counters_grow (query_requests self ids).
Proof.
  apply run_query_requests;
    first [ exact counters_grow_refl | exact counters_grow_trans
          | exact (counters_grow_persist self)
          | (apply counters_grow_incr; intros v; unfold le_counters; simpl; lia)
          | intros; apply counters_grow_same; reflexivity ].
Qed.

(** No run resets a counter or takes from it: over any number of runs,
    however they end, each of the four counters is at least what it was. *)
Theorem runs_never_lower_counters runs : forall s v,
  state_vector s = Some v ->
  exists v', state_vector (run_many runs s) = Some v' /\ le_counters v v'.
Proof.
  induction runs as [|[self ids] runs IH]; intros s v Hv; simpl.
  - exists v. split; [exact Hv | apply le_counters_refl].
  - destruct (query_requests self ids s) as [r s1] eqn:E. simpl.
    destruct (counters_grow_query_requests self ids s r s1 E v Hv) as (v1 & Hv1 & L1).
    destruct (IH s1 v1 Hv1) as (v' & Hv' & L'). exists v'. split; [exact Hv'|].
    unfold le_counters in *. lia.
Qed.

Lemma runs_never_lower_counters_witness :
  state_vector Scenario.ready = Some (mkSV 0 0 0 0)
  /\ exists v',
       state_vector
         (run_many [(Scenario.ctios 2,
                     [Scenario.id "101"; Scenario.id "102"; Scenario.id "103"]);
                    (Scenario.ctios 1, [Scenario.id "104"; Scenario.id "999"])]
            Scenario.ready) = Some v'
       /\ le_counters (mkSV 0 0 0 0) v'.
Proof. split; [reflexivity|]. apply runs_never_lower_counters. reflexivity. Defined.

(** ** A record with one of the three markers *)

(** Nothing but counters, local variables and log lines changes. *)
Definition untouched (s s' : State) : Prop :=
  opsub s' = opsub s /\ txn s' = txn s /\ effects (trace s') = effects (trace s).

Lemma untouched_refl s : untouched s s.
Proof. unfold untouched. auto. Qed.

Lemma untouched_trans s1 s2 s3 : untouched s1 s2 -> untouched s2 s3 -> untouched s1 s3.
Proof. unfold untouched. intros (A1 & A2 & A3) (B1 & B2 & B3). repeat split; congruence. Qed.

Lemma untouched_log lvl msg args s : untouched s (add_event (EvLog lvl msg args) s).
Proof.
  unfold untouched, effects. simpl. rewrite List.filter_app. simpl.
  rewrite app_nil_r. auto.
Qed.

Lemma untouched_incr f : pres untouched (incr_state_vector f).
Proof.
  unfold incr_state_vector. apply (pres_bind _ untouched_trans).
  - apply pres_get_state_vector; [exact untouched_refl | exact untouched_trans].
  - intros v. apply pres_modify. intros s. unfold untouched. auto.
Qed.

Lemma untouched_classify os : pres untouched (classify os).
Proof.
  apply pres_classify;
    first [ exact untouched_refl | exact untouched_trans | exact untouched_log
          | exact untouched_incr | intros; unfold untouched; auto ].
Qed.

Lemma ends_with_continue (m1 m2 : M unit) s (c : bool) s' :
  (m1;; m2;; ret true) s = (Ok c, s') -> c = true.
Proof.
  intros H.
  apply bind_inv in H as [([] & s1 & _ & H) | (e & _ & He)]; [|discriminate He].
  apply bind_inv in H as [([] & s2 & _ & H) | (e & _ & He)]; [|discriminate He].
  inversion H. reflexivity.
Qed.

(** With a known marker the classification ends the iteration. *)
Lemma classify_known_marker os chyba s c s' :
  find_child os tag_chybaPOSIdent = Some chyba ->
  known_marker chyba = true ->
  classify os s = (Ok c, s') ->
  c = true.
Proof.
  intros Hc Hk H. unfold classify in H. rewrite Hc in H. unfold known_marker in Hk.
  apply bind_inv in H as [(p & s1 & _ & H) | (e & _ & He)]; [|discriminate He].
  apply bind_inv in H as [([] & s2 & _ & H) | (e & _ & He)]; [|discriminate He].
  destruct (text_is chyba "NEPLATNY_IDENTIFIKATOR"); [eapply ends_with_continue; eauto|].
  destruct (text_is chyba "EXPIROVANY_IDENTIFIKATOR"); [eapply ends_with_continue; eauto|].
  destruct (text_is chyba "OPRAVNENY_SUBJEKT_NEEXISTUJE");
    [eapply ends_with_continue; eauto | discriminate Hk].
Qed.

(** A record that carries one of the three markers is counted and
    logged, and that is all: no connection is opened for it, no statement
    is sent, the table and a pending transaction are as they were, whether
    the iteration returns or raises. *)
Theorem marked_record_not_stored self os chyba s r s' :
  find_child os tag_chybaPOSIdent = Some chyba ->
  known_marker chyba = true ->
  process_os self os s = (r, s') ->
  untouched s s'
  /\ (r = Ok tt -> state_vector s' = option_map (tally os) (state_vector s)).
Proof.
  intros Hc Hk H. split.
  - unfold process_os in H.
    apply bind_inv in H as [(c & s1 & H1 & H) | (e & H1 & _)].
    + rewrite (classify_known_marker _ _ _ _ _ Hc Hk H1) in H. inversion H; subst.
      exact (untouched_classify os _ _ _ H1).
    + exact (untouched_classify os _ _ _ H1).
  - intros ->. exact (process_os_counts _ _ _ _ _ H).
Qed.

Lemma marked_record_not_stored_witness :
  let os := Scenario.os_err "102" "NEPLATNY_IDENTIFIKATOR" in
  let run := process_os (Scenario.ctios 2) os Scenario.ready in
  find_child os tag_chybaPOSIdent
  = Some (Scenario.leaf "chybaPOSIdent" "NEPLATNY_IDENTIFIKATOR")
  /\ known_marker (Scenario.leaf "chybaPOSIdent" "NEPLATNY_IDENTIFIKATOR") = true
  /\ (untouched Scenario.ready run.2
      /\ (run.1 = Ok tt ->
          state_vector run.2 = option_map (tally os) (state_vector Scenario.ready))).
Proof.
  cbv zeta. split; [reflexivity|]. split; [reflexivity|].
  apply (marked_record_not_stored (Scenario.ctios 2)
           (Scenario.os_err "102" "NEPLATNY_IDENTIFIKATOR")
           (Scenario.leaf "chybaPOSIdent" "NEPLATNY_IDENTIFIKATOR"));
    [reflexivity | reflexivity | apply surjective_pairing].
Defined.

(** ** [set_ids_from_db]: what it leaves alone and how it fails *)

(** The table afterwards is what the statement of the caller's made of
    it. *)
Definition written_by (self : CtiOs) (sql : string) (db db' : option Table) : Prop :=
  exists rows,
    String.eqb sql default_sql = false /\ fetchall self sql db = Some (rows, db').

Lemma execute_fetchall_inv self sql s r s' :
  txn s = None ->
  execute_fetchall self sql s = (r, s') ->
  opsub s' = opsub s /\ state_vector s' = state_vector s
  /\ match r with
     | Ok _ => txn s' = None
               \/ exists w, txn s' = Some w /\ written_by self sql (opsub s) w
     | Raise e => is_sqlite_error e = true /\ txn s' = None
     end.
Proof.
  intros T. unfold execute_fetchall, caller_sql. unfold_monad.
  unfold current_db. rewrite T. destruct (String.eqb sql default_sql) eqn:Eq.
  - destruct (opsub s) as [t|] eqn:O.
    + destruct (select_id t); simpl; intros H; inversion H; subst; simpl; auto.
    + intros H; inversion H; subst; simpl; auto.
  - destruct (fetchall self sql (opsub s)) as [[rows db']|] eqn:F; simpl;
      intros H; inversion H; subst; simpl; auto.
    split; [reflexivity|]. split; [reflexivity|]. right.
    exists db'. split; [reflexivity|]. exists rows. split; [exact Eq | exact F].
Qed.

Lemma create_connection_inv s r s' :
  _create_connection s = (r, s') ->
  opsub s' = opsub s /\ state_vector s' = state_vector s
  /\ match r with
     | Ok _ => txn s' = None
     | Raise e => db_openable s = false /\ (log_ready s -> e = CtiOsError "SQLITE3 ERROR")
     end.
Proof.
  unfold _create_connection. unfold_monad. destruct (db_openable s) eqn:D.
  - intros H. inversion H; subst. simpl. auto.
  - intros H.
    change ((log_if_dir FATAL "SQLITE3 ERROR!" [];; raise (CtiOsError "SQLITE3 ERROR")) s
            = (r, s')) in H.
    apply bind_inv in H as [([] & s1 & H1 & H) | (e & H1 & ->)];
      pose proof (quiet_log_if_dir _ _ _ _ _ _ H1) as (Ho & _ & Hv & _).
    + inversion H; subst. auto.
    + split; [exact Ho|]. split; [exact Hv|]. split; [reflexivity|].
      intros Hready. exfalso. log_line H1 Hready R1.
Qed.

Lemma create_then_fetch_inv self q s r s' :
  (_create_connection;; with_conn (execute_fetchall self q)) s = (r, s') ->
  state_vector s' = state_vector s
  /\ (opsub s' = opsub s \/ written_by self q (opsub s) (opsub s'))
  /\ (forall e, r = Raise e -> is_sqlite_error e = false ->
        db_openable s = true \/ log_ready s -> e = CtiOsError "SQLITE3 ERROR").
Proof.
  intros H. apply bind_inv in H as [([] & s1 & H1 & H) | (e & H1 & ->)];
    apply create_connection_inv in H1 as (O1 & V1 & E1).
  - unfold with_conn in H.
    destruct (execute_fetchall self q s1) as [[rows|e] s2] eqn:F;
      apply (execute_fetchall_inv _ _ _ _ _ E1) in F as (O2 & V2 & F2);
      inversion H; subst; clear H.
    + unfold commit. destruct F2 as [T2 | (w & T2 & W)]; rewrite T2.
      * split; [congruence|]. split; [left; congruence|]. intros e He. discriminate He.
      * simpl. split; [congruence|]. split; [right; now rewrite <- O1|].
        intros e He. discriminate He.
    + simpl. split; [congruence|]. split; [left; congruence|].
      intros e' He Hs. inversion He; subst e'. destruct F2 as [F2 _].
      rewrite F2 in Hs. discriminate Hs.
  - split; [exact V1|]. split; [left; exact O1|].
    intros e' He _ Hor. inversion He; subst e'. destruct E1 as [D Hl].
    destruct Hor as [Hd|Hready]; [congruence | auto].
Qed.

(** Selecting the identifiers moves no counter, and the method itself
    writes nothing: the table afterwards is the table before, or what
    the statement of the caller's made of it, and it is the table before
    when no statement is given.  When the selection fails, it fails with
    a CtiOsError, the case apart where the file cannot be opened on an
    instance that is not set up for logging. *)
Theorem set_ids_from_db_failures self sql s r s' :
  set_ids_from_db self sql s = (r, s') ->
  state_vector s' = state_vector s
  /\ (opsub s' = opsub s
      \/ exists q, sql = Some q /\ written_by self q (opsub s) (opsub s'))
  /\ (sql = None -> opsub s' = opsub s)
  /\ (forall e, r = Raise e -> db_openable s = true \/ log_ready s ->
                exists msg, e = CtiOsError msg).
Proof.
  unfold set_ids_from_db. cbv zeta. intros H.
  set (q := match sql with Some q => q | None => default_sql end) in H.
  assert (Hget : forall r1 s1, _get_ids_from_db self q s = (r1, s1) ->
    state_vector s1 = state_vector s
    /\ (opsub s1 = opsub s \/ written_by self q (opsub s) (opsub s1))
    /\ (forall e, r1 = Raise e -> db_openable s = true \/ log_ready s ->
                  exists msg, e = CtiOsError msg)).
  { intros r1 s1 H1. unfold _get_ids_from_db in H1.
    apply bind_inv in H1 as [(rows & s2 & H2 & H1) | (e & H2 & ->)].
    - inversion H1; subst; clear H1. unfold try_except in H2.
      destruct ((_create_connection;; with_conn (execute_fetchall self q)) s)
        as [[a|e] s3] eqn:E.
      + inversion H2; subst. apply create_then_fetch_inv in E as (V & O & _).
        split; [exact V|]. split; [exact O|]. intros e He. discriminate He.
      + unfold ret, raise in H2. destruct (is_sqlite_error e); discriminate H2.
    - unfold try_except in H2.
      destruct ((_create_connection;; with_conn (execute_fetchall self q)) s)
        as [[a|e0] s3] eqn:E; [discriminate H2|].
      apply create_then_fetch_inv in E as (V & O & Ee).
      unfold ret, raise in H2. destruct (is_sqlite_error e0) eqn:S; inversion H2; subst.
      + split; [exact V|]. split; [exact O|]. intros e' He _. inversion He. eauto.
      + split; [exact V|]. split; [exact O|]. intros e' He Hor. inversion He; subst e'.
        rewrite (Ee e eq_refl S Hor). eauto. }
  assert (Hfin : forall s1 : State,
    state_vector s1 = state_vector s ->
    opsub s1 = opsub s \/ written_by self q (opsub s) (opsub s1) ->
    state_vector s1 = state_vector s
    /\ (opsub s1 = opsub s
        \/ exists q0, sql = Some q0 /\ written_by self q0 (opsub s) (opsub s1))
    /\ (sql = None -> opsub s1 = opsub s)).
  { intros s1 V [O|W]; (split; [exact V|]).
    - split; [left; exact O | intros _; exact O].
    - destruct sql as [q0|].
      + split; [right; exists q0; split; [reflexivity | exact W] | discriminate].
      + exfalso. destruct W as (rows & Eq & _). unfold q in Eq.
        rewrite String.eqb_refl in Eq. discriminate Eq. }
  apply bind_inv in H as [(ids & s1 & H1 & H) | (e & H1 & ->)];
    apply Hget in H1 as (V & O & Ee).
  - destruct (Hfin s1 V O) as (A & B & C).
    destruct (Z.of_nat (length ids) <=? 1); inversion H; subst.
    + split; [exact A|]. split; [exact B|]. split; [exact C|].
      intros e He _. inversion He. eauto.
    + split; [exact A|]. split; [exact B|]. split; [exact C|].
      intros e He. discriminate He.
  - destruct (Hfin s' V O) as (A & B & C).
    split; [exact A|]. split; [exact B|]. split; [exact C|]. exact Ee.
Qed.

(** A table without the column ID: the default statement is rejected. *)
Lemma set_ids_from_db_failures_witness :
  let s := set_opsub (Some (mkTable ["NAZEV"] [[Some "Alfa"]])) Scenario.fresh in
  let run := set_ids_from_db (Scenario.ctios 2) None s in
  run.1 = Raise (CtiOsError "Database error")
  /\ (state_vector run.2 = state_vector s
      /\ (opsub run.2 = opsub s
          \/ exists q, @None string = Some q
                       /\ written_by (Scenario.ctios 2) q (opsub s) (opsub run.2))
      /\ (@None string = None -> opsub run.2 = opsub s)
      /\ (forall e, run.1 = Raise e -> db_openable s = true \/ log_ready s ->
                    exists msg, e = CtiOsError msg)).
Proof.
  cbv zeta. split; [vm_compute; reflexivity|].
  apply (set_ids_from_db_failures (Scenario.ctios 2) None). apply surjective_pairing.
Defined.

(** A statement of the caller's that deletes every row and so returns
    none: the call fails for the empty result, after the connection has
    committed the deletion. *)
Example set_ids_from_db_commits_before_failing :
  let self := mkCtiOs "user" "secret" 2 Scenario.render Some Scenario.parse
                (Some Scenario.attribute_map)
                (fun _ db => Some ([], option_map (fun t => mkTable (columns t) []) db))
                (fun _ => true) in
  let run := set_ids_from_db self (Some "DELETE FROM OPSUB") Scenario.ready in
  run.1 = Raise (CtiOsError "Query has an empty result!")
  /\ opsub run.2 = Some (mkTable ["ID"; "NAZEV"] [])
  /\ txn run.2 = None.
Proof. vm_compute. repeat split. Qed.

(** ** The request document and a failing service *)

(** The element of one row of identifiers: its first column. *)
Definition posident_element (i : Row) : string :=
  match i with
  | i0 :: _ => "<v2:pOSIdent>" +:+ format_cell i0 +:+ "</v2:pOSIdent>"
  | [] => ""
  end.

Definition nonempty_row (i : Row) : bool :=
  match i with [] => false | _ :: _ => true end.

Lemma draw_up_loop ids : forall acc s,
  for_each ids
    (fun i acc =>
       match i with
       | i0 :: _ => ret (acc ++ ["<v2:pOSIdent>" +:+ format_cell i0 +:+ "</v2:pOSIdent>"])
       | [] => raise IndexError
       end) acc s
  = (if forallb nonempty_row ids then Ok (acc ++ map posident_element ids)
     else Raise IndexError, s).
Proof.
  induction ids as [|i ids IH]; intros acc s.
  - simpl. now rewrite app_nil_r.
  - cbn [for_each forallb map]. unfold mbind, M_bind, bind. destruct i as [|i0 i]; simpl.
    + reflexivity.
    + unfold ret at 1. rewrite IH.
      destruct (forallb nonempty_row ids); [|reflexivity].
      now rewrite <- app_assoc.
Qed.

Lemma draw_up_xml_request_eq self ids s :
  _draw_up_xml_request self ids s
  = (if forallb nonempty_row ids
     then Ok (render_request self (_username self) (_password self)
                (str_join (map posident_element ids)))
     else Raise IndexError, s).
Proof.
  unfold _draw_up_xml_request. unfold mbind, M_bind, bind. rewrite draw_up_loop.
  destruct (forallb nonempty_row ids); reflexivity.
Qed.

(** The request names the first column of every row, one element per row
    and in the order of the list; a row without columns raises IndexError;
    in either case nothing else happens. *)
Theorem draw_up_xml_request_spec self ids s :
  _draw_up_xml_request self ids s
  = (if forallb nonempty_row ids
     then Ok (render_request self (_username self) (_password self)
                (str_join (map posident_element ids)))
     else Raise IndexError, s).
Proof. apply draw_up_xml_request_eq. Qed.

(** When the service cannot be reached for a batch, the batch ends in a
    CtiOsError after the one request: no record is classified and no
    statement is sent. *)
Theorem query_service_service_error self ids s :
  forallb nonempty_row ids = true ->
  post self (render_request self (_username self) (_password self)
               (str_join (map posident_element ids))) = None ->
  _query_service self ids s
  = (Raise (CtiOsError "Service error"),
     add_event (EvPost (render_request self (_username self) (_password self)
                          (str_join (map posident_element ids))))
       (add_event (EvCall ids) s)).
Proof.
  intros Hrows Hpost. unfold _query_service, serve, emit, modify.
  unfold mbind, M_bind, bind. rewrite draw_up_xml_request_eq, Hrows.
  unfold _call_service, emit, modify. unfold mbind, M_bind, bind. now rewrite Hpost.
Qed.

Lemma query_service_service_error_witness :
  let self := mkCtiOs "user" "secret" 2 Scenario.render (fun _ => None) Scenario.parse
                (Some Scenario.attribute_map) (fun _ _ => None) (fun _ => true) in
  let ids := [Scenario.id "101"; Scenario.id "102"] in
  forallb nonempty_row ids = true
  /\ _query_service self ids Scenario.ready
     = (Raise (CtiOsError "Service error"),
        add_event (EvPost (render_request self (_username self) (_password self)
                             (str_join (map posident_element ids))))
          (add_event (EvCall ids) Scenario.ready)).
Proof.
  cbv zeta. split; [reflexivity|].
  apply query_service_service_error; reflexivity.
Defined.

(** ** The attributes of a record (lines 300-303) *)

Lemma child_is_descendant e c : In c (children e) -> In c (descendants e).
Proof.
  destruct e as [t x cs]. simpl. intros H. apply in_flat_map.
  exists c. split; [exact H | left; reflexivity].
Qed.

Lemma descendants_children : forall e d c,
  In d (descendants e) -> In c (children d) -> In c (descendants e).
Proof.
  fix IH 1. intros [t x cs] d c. simpl.
  induction cs as [|c0 cs IHcs]; simpl; [intros Hd; exact (False_ind _ Hd)|].
  intros Hd Hc. rewrite in_app_iff in Hd.
  destruct Hd as [Hd|[Hd|Hd]].
  - subst d. right. apply in_app_iff. left. now apply child_is_descendant.
  - right. apply in_app_iff. left. exact (IH c0 d c Hd Hc).
  - right. apply in_app_iff. right. exact (IHcs Hd Hc).
Qed.

Lemma find_desc_of_descendant os c :
  In c (descendants os) -> exists e, find_desc os (tag c) = Some e.
Proof.
  intros Hin. unfold find_desc.
  destruct (List.find (has_tag (tag c)) (descendants os)) as [e|] eqn:F; [eauto|].
  pose proof (List.find_none _ _ F c Hin) as Hn. unfold has_tag in Hn.
  rewrite String.eqb_refl in Hn. discriminate Hn.
Qed.

(** Entry [k], [v] of the dictionary comes from a child of [osDetail]: [k]
    is its tag without the namespace and [v] the text of the first
    descendant of the record that has its tag. *)
Definition attribute_of (os detail : Element) (k : string) (v : cell) : Prop :=
  exists child e, In child (children detail)
                  /\ local_name (tag child) = Some k
                  /\ find_desc os (tag child) = Some e /\ v = text e.

Lemma read_details_loop os detail : forall cs acc s r s',
  In detail (descendants os) ->
  incl cs (children detail) ->
  for_each cs
    (fun child xml_attributes =>
       let name2 := tag child in
       v ← match find_desc os name2 with
           | Some e => ret (text e)
           | None => raise (AttributeError "text")
           end;
       match local_name name2 with
       | Some k => ret (dict_set k v xml_attributes)
       | None => raise ValueError
       end) acc s = (r, s') ->
  s' = s
  /\ match r with
     | Ok d => forall (k : string) (v : cell), In (k, v) d ->
                 In (k, v) acc \/ attribute_of os detail k v
     | Raise e => e = ValueError
                  /\ exists child, In child (children detail)
                                   /\ local_name (tag child) = None
     end.
Proof.
  intros cs. induction cs as [|c cs IH]; intros acc s r s' Hd Hin H.
  - inversion H; subst. split; [reflexivity | auto].
  - assert (Hc : In c (children detail)) by (apply Hin; left; reflexivity).
    assert (Hcs : incl cs (children detail)) by (intros x Hx; apply Hin; right; exact Hx).
    destruct (find_desc_of_descendant os c (descendants_children _ _ _ Hd Hc)) as [e He].
    cbn [for_each] in H. cbv zeta in H. rewrite He in H.
    unfold mbind, M_bind, bind in H. unfold ret at 1 in H.
    destruct (local_name (tag c)) as [k0|] eqn:L.
    + unfold ret at 1 in H. destruct (IH _ _ _ _ Hd Hcs H) as [-> Hr].
      split; [reflexivity|]. destruct r as [d|e']; [|exact Hr].
      intros k v Hkv. destruct (Hr k v Hkv) as [Hacc|Hattr]; [|auto].
      apply dict_set_In in Hacc as [[-> ->]|Hacc]; [|auto].
      right. exists c, e. auto.
    + unfold raise in H. inversion H; subst. split; [reflexivity|]. eauto.
Qed.

(** Reading the attributes of a record changes nothing.  It raises
    TypeError when the record has no [osDetail] and ValueError when the
    tag of a child of [osDetail] has no namespace, and nothing else;
    every entry of the dictionary it returns comes from a child of
    [osDetail]. *)
Theorem read_details_spec os s r s' :
  read_details os s = (r, s') ->
  s' = s
  /\ match r with
     | Ok d => exists detail, find_desc os tag_osDetail = Some detail
                 /\ forall (k : string) (v : cell), In (k, v) d -> attribute_of os detail k v
     | Raise e => (e = TypeError /\ find_desc os tag_osDetail = None)
                  \/ (e = ValueError
                      /\ exists detail child,
                           find_desc os tag_osDetail = Some detail
                           /\ In child (children detail)
                           /\ local_name (tag child) = None)
     end.
Proof.
  unfold read_details. destruct (find_desc os tag_osDetail) as [detail|] eqn:F.
  - intros H. assert (Hd : In detail (descendants os)).
    { unfold find_desc in F. now apply List.find_some in F as [Hd _]. }
    apply (read_details_loop os detail) in H as [-> Hr]; [|exact Hd|apply incl_refl].
    split; [reflexivity|]. destruct r as [d|e].
    + exists detail. split; [reflexivity|]. intros k v Hkv.
      destruct (Hr k v Hkv) as [[]|Ha]. exact Ha.
    + right. destruct Hr as [-> (child & Hc & Hl)]. split; [reflexivity|]. eauto.
  - intros H. inversion H; subst. split; [reflexivity|]. left. auto.
Qed.

Lemma read_details_spec_witness :
  let os := Scenario.os_ok "101" "9001" [("nazev", "Alfa"); ("prijmeni", "Beta")] in
  let run := read_details os Scenario.ready in
  run = (Ok [("nazev", Some "Alfa"); ("prijmeni", Some "Beta")], Scenario.ready)
  /\ (run.2 = Scenario.ready
      /\ match run.1 with
         | Ok d => exists detail, find_desc os tag_osDetail = Some detail
                     /\ forall (k : string) (v : cell), In (k, v) d ->
                          attribute_of os detail k v
         | Raise e => (e = TypeError /\ find_desc os tag_osDetail = None)
                      \/ (e = ValueError
                          /\ exists detail child,
                               find_desc os tag_osDetail = Some detail
                               /\ In child (children detail)
                               /\ local_name (tag child) = None)
         end).
Proof.
  cbv zeta. split; [vm_compute; reflexivity|].
  apply read_details_spec. apply surjective_pairing.
Defined.

(** ** A log file that cannot be opened *)

(** When the log file cannot be opened, [set_log_file] has assigned
    [log_dir] and nothing else; on an instance left like that a run
    raises AttributeError at its first log line, before any request. *)
Theorem set_log_file_failure self dir ids s :
  log_file_ok self dir = false ->
  truthy dir = true ->
  logging s = false ->
  set_log_file self dir s = (Raise OSError, set_log_dir (Some dir) s)
  /\ query_requests self ids (set_log_dir (Some dir) s)
     = (Raise (AttributeError "logging"), set_log_dir (Some dir) s).
Proof.
  intros Hok Hdir Hlog. split.
  - unfold set_log_file. unfold_monad. now rewrite Hok.
  - assert (L : forall lvl msg args,
      log_if_dir lvl msg args (set_log_dir (Some dir) s)
      = (Raise (AttributeError "logging"), set_log_dir (Some dir) s)).
    { intros lvl msg args. unfold log_if_dir, get_log_dir, log. unfold_monad.
      cbn [log_dir set_log_dir logging]. rewrite Hdir.
      cbn [log_dir set_log_dir logging]. now rewrite Hlog. }
    unfold query_requests. cbv zeta. unfold mbind, M_bind, bind. now rewrite L.
Qed.

Lemma set_log_file_failure_witness :
  let self := mkCtiOs "user" "secret" 2 Scenario.render Some Scenario.parse
                (Some Scenario.attribute_map) (fun _ _ => None) (fun _ => false) in
  log_file_ok self "/nowhere" = false
  /\ truthy "/nowhere" = true
  /\ logging Scenario.fresh = false
  /\ (set_log_file self "/nowhere" Scenario.fresh
      = (Raise OSError, set_log_dir (Some "/nowhere") Scenario.fresh)
      /\ query_requests self [Scenario.id "101"] (set_log_dir (Some "/nowhere") Scenario.fresh)
         = (Raise (AttributeError "logging"), set_log_dir (Some "/nowhere") Scenario.fresh)).
Proof.
  cbv zeta. split; [reflexivity|]. split; [reflexivity|]. split; [reflexivity|].
  apply set_log_file_failure; reflexivity.
Defined.

(** ** A database file that cannot be opened *)

(** When the file cannot be opened while a record is stored, the error of
    [_create_connection] reaches the clause [except conn.Error].  For the
    first record stored in a call [conn] is not bound yet, and what is
    raised is UnboundLocalError; for a later record it is the CtiOsError.
    Nothing is written either way. *)
Theorem open_and_evolve_unopenable s :
  db_openable s = false ->
  log_ready s ->
  exists s',
    open_and_evolve s
    = (Raise (if conn (locals s) then CtiOsError "SQLITE3 ERROR"
              else UnboundLocalError "conn"), s')
    /\ quiet s s'.
Proof.
  intros Hdb Hready.
  destruct (log_if_dir_ready FATAL "SQLITE3 ERROR!" [] s Hready) as (s1 & L & R1).
  pose proof (quiet_log_if_dir _ _ _ _ _ _ L) as Hq.
  assert (Hl : locals s1 = locals s).
  { unfold log_if_dir, get_log_dir, log in L. unfold_monad.
    destruct (log_dir s) as [d|]; [|discriminate L].
    destruct (truthy d); [|inversion L; reflexivity].
    destruct (logging s); inversion L; reflexivity. }
  exists s1. split; [|exact Hq].
  unfold open_and_evolve, try_except, _create_connection, conn_Error.
  unfold mbind, M_bind, bind, get. rewrite Hdb.
  change ((log_if_dir FATAL "SQLITE3 ERROR!" [];; raise (CtiOsError "SQLITE3 ERROR")) s)
    with (match log_if_dir FATAL "SQLITE3 ERROR!" [] s with
          | (Ok _, s2) => raise (CtiOsError "SQLITE3 ERROR") s2
          | (Raise e, s2) => (Raise e, s2)
          end).
  rewrite L. unfold raise at 1. rewrite Hl.
  destruct (conn (locals s)); reflexivity.
Qed.

Lemma open_and_evolve_unopenable_witness :
  let s := mkState (Some "/tmp") true (Some (mkSV 0 0 0 0)) no_locals false
             (Some Scenario.opsub0) None [] in
  db_openable s = false
  /\ log_ready s
  /\ exists s',
       open_and_evolve s
       = (Raise (if conn (locals s) then CtiOsError "SQLITE3 ERROR"
                 else UnboundLocalError "conn"), s')
       /\ quiet s s'.
Proof.
  cbv zeta.
  assert (Hr : log_ready (mkState (Some "/tmp") true (Some (mkSV 0 0 0 0)) no_locals false
                            (Some Scenario.opsub0) None []))
    by (exists "/tmp"; split; reflexivity).
  split; [reflexivity|]. split; [exact Hr|].
  apply open_and_evolve_unopenable; [reflexivity | exact Hr].
Defined.
